(** * dependency-confusion-finder.py: a shallow embedding and its properties

    The script enumerates the package URLs (purls) of a CycloneDX SBOM,
    splits each one into (ecosystem, name), asks the public registry of the
    ecosystem whether the name exists and writes a text report.

    Python values are modelled as follows.
    - [str] is a sequence of Unicode code points ([list N]); [py "..."]
      turns an ASCII literal into such a sequence.
    - A function that can raise or call [sys.exit] returns an [outcome].
    - Code that prints, starts a process, opens a file or performs an HTTP
      request runs in the monad [M]: it extends a trace of [event]s and
      obtains the answers of the outside world from an [environment]. *)

From Stdlib Require Import ZArith Ascii String.
From stdpp Require Import base tactics option list numbers gmap sorting lexico pretty strings.

Local Open Scope Z_scope.

(** ** Strings *)

Module Str.

Abbreviation char := N (only parsing).
Abbreviation str := (list N) (only parsing).

(** An ASCII literal as a sequence of code points. *)
Definition py (s : string) : str := N_of_ascii <$> list_ascii_of_string s.

Definition colon : char := 58%N.
Definition slash : char := 47%N.
Definition at_sign : char := 64%N.
Definition space : char := 32%N.
Definition newline : char := 10%N.

(** [cut sep s] looks for the first occurrence of [sep] in [s] and returns
    what is before it and what is after it. *)
Fixpoint cut (sep : char) (s : str) : option (str * str) :=
  match s with
  | [] => None
  | c :: s' =>
      if decide (c = sep) then Some ([], s')
      else match cut sep s' with
           | Some (before, after) => Some (c :: before, after)
           | None => None
           end
  end.

(** [s.split(sep, 1)] for a one-character separator: at most one split,
    at the first occurrence; a list of one or two strings. *)
Definition split1 (sep : char) (s : str) : list str :=
  match cut sep s with
  | Some (before, after) => [before; after]
  | None => [s]
  end.

(** [sep.join(l)] *)
Fixpoint join (sep : str) (l : list str) : str :=
  match l with
  | [] => []
  | [x] => x
  | x :: l' => x ++ sep ++ join sep l'
  end.

(** [f"{s:<w}"]: [s] left-aligned in a field of minimum width [w], filled
    with spaces on the right; a longer [s] is kept whole. *)
Definition ljust (w : nat) (s : str) : str :=
  s ++ replicate (w - length s)%nat space.

(** [f"{n}"] for an integer. *)
Definition of_Z (n : Z) : str := py (pretty n).

(** Truth value of a string: the empty string is false. *)
Definition truthy (s : str) : bool :=
  match s with [] => false | _ :: _ => true end.

(** Python's [<] on strings: lexicographic on code points, a proper
    prefix before its extensions. *)
Definition lt : relation str := lexico.

Global Instance lt_dec : RelDecision lt.
Proof.
  intros s1 s2. destruct (trichotomyT lt s1 s2) as [[Hlt | Heq] | Hgt].
  - left. exact Hlt.
  - right. subst s2. apply (irreflexivity lt).
  - right. intros Hlt. apply (irreflexivity lt s1). by trans s2.
Defined.

(** The test a merge makes with [<] alone: [s1] goes first unless
    [s2 < s1]. *)
Definition le (s1 s2 : str) : Prop := ¬ lt s2 s1.

Global Instance le_dec : RelDecision le.
Proof. intros s1 s2. unfold le. apply _. Defined.

(** [sorted(s)] for a set of strings. *)
Definition sorted (s : gset str) : list str := merge_sort le (elements s).

End Str.
Import Str.

(** ** Exceptions and exits *)

(** The exception classes the script meets, each with [str(e)].
    [JSONDecodeError] is a subclass of [ValueError]; all of them are
    subclasses of [Exception]. *)
Inductive exn :=
| ValueError (msg : list N)
| IndexError (msg : list N)
| JSONDecodeError (msg : list N)
| FileNotFoundError (msg : list N)
| CalledProcessError (returncode : Z) (msg : list N)
| RequestException (msg : list N)
| OtherException (msg : list N).

Definition exn_str (e : exn) : list N :=
  match e with
  | ValueError msg | IndexError msg | JSONDecodeError msg
  | FileNotFoundError msg | CalledProcessError _ msg
  | RequestException msg | OtherException msg => msg
  end.

Definition is_ValueError (e : exn) : bool :=
  match e with ValueError _ | JSONDecodeError _ => true | _ => false end.

(** How a piece of code ends: it returns a value, raises an exception, or
    raises [SystemExit] through [sys.exit(code)]. *)
Inductive outcome (A : Type) :=
| Ret (a : A)
| Raise (e : exn)
| SysExit (code : Z).
Arguments Ret {A} a.
Arguments Raise {A} e.
Arguments SysExit {A} code.

Global Instance outcome_ret : MRet outcome := λ A a, Ret a.
Global Instance outcome_bind : MBind outcome := λ A B f m,
  match m with
  | Ret a => f a
  | Raise e => Raise e
  | SysExit c => SysExit c
  end.

(** [try: body except <classes> as e: handler]; [handler e = None] when the
    [except] clause does not match [e]. [SystemExit] is not an [Exception]
    and passes through. *)
Definition try_except {A} (body : outcome A) (handler : exn → option (outcome A))
  : outcome A :=
  match body with
  | Raise e => match handler e with Some h => h | None => Raise e end
  | _ => body
  end.

(** [a, b = l] *)
Definition unpack2 {A} (l : list A) : outcome (A * A) :=
  match l with
  | [a; b] => Ret (a, b)
  | [] => Raise (ValueError (py "not enough values to unpack (expected 2, got 0)"))
  | [_] => Raise (ValueError (py "not enough values to unpack (expected 2, got 1)"))
  | _ => Raise (ValueError (py "too many values to unpack (expected 2)"))
  end.

(** [l[0]] *)
Definition item0 {A} (l : list A) : outcome A :=
  match l with
  | a :: _ => Ret a
  | [] => Raise (IndexError (py "list index out of range"))
  end.

(** ** extract_pkg_info *)

Definition extract_pkg_info (purl : list N)
  : outcome (option (list N) * option (list N)) :=
  try_except
    ('(_, rest) ← unpack2 (split1 colon purl);
     '(ecosystem, remainder) ← unpack2 (split1 slash rest);
     pkg_name ← item0 (split1 at_sign remainder);
     Ret (Some ecosystem, Some pkg_name))
    (λ e, if is_ValueError e then Some (Ret (None, None)) else None).

(** ** The outside world *)

(** A component of the SBOM; [purl c] is [comp.get("purl")], [None] when
    the component has no such field. CycloneDX types the field as a string. *)
Record component := Component { purl : option (list N) }.

(** The parsed SBOM; [components d = None] when the document has no
    [components] key. *)
Record sbom := Sbom { components : option (list component) }.

(** What the run does to the outside world, in order. *)
Inductive event :=
| Stdout (line : list N)
| Stderr (line : list N)
| PrintHelp
| ArgparseError (msg : list N)
| SubprocessRun (cmd : list (list N))
| JsonLoad (path : list N)
| RequestsGet (url : list N) (timeout : Z)
| WriteText (path : list N) (content : list N).

(** An event that reaches beyond the terminal: a process, a file, the
    network. *)
Definition is_io (e : event) : bool :=
  match e with
  | SubprocessRun _ | JsonLoad _ | RequestsGet _ _ | WriteText _ _ => true
  | Stdout _ | Stderr _ | PrintHelp | ArgparseError _ => false
  end.

(** The answers of the outside world. Each call either returns or raises;
    an answer may depend on everything that happened before it.
    - [subprocess_run t cmd] is [subprocess.run(cmd, check=True)]: it raises
      [CalledProcessError] with the return code when that is not zero, and
      [FileNotFoundError] when the program is not on the path;
    - [json_load t path] opens [path] and runs [json.load] on it;
    - [requests_get t url] is [requests.get(url, timeout=10).status_code];
    - [write_text t path s] opens [path] for writing and writes [s]. *)
Record environment := Environment {
  subprocess_run : list event → list (list N) → exn + unit;
  json_load : list event → list N → exn + sbom;
  requests_get : list event → list N → exn + Z;
  write_text : list event → list N → list N → exn + unit;
}.

(** ** The monad of the script *)

Definition M (A : Type) : Type := list event → outcome A * list event.

Global Instance M_ret : MRet M := λ A a t, (Ret a, t).
Global Instance M_bind : MBind M := λ A B f m t,
  match m t with
  | (Ret a, t') => f a t'
  | (Raise e, t') => (Raise e, t')
  | (SysExit c, t') => (SysExit c, t')
  end.

Definition emit (e : event) : M unit := λ t, (Ret (), t ++ [e]).
Definition print (s : list N) : M unit := emit (Stdout s).
Definition eprint (s : list N) : M unit := emit (Stderr s).
Definition sys_exit {A} (code : Z) : M A := λ t, (SysExit code, t).
Definition lift {A} (o : outcome A) : M A := λ t, (o, t).

(** A call to the outside: the event is recorded, the answer decides
    between returning and raising. *)
Definition call {A} (e : event) (answer : list event → exn + A) : M A := λ t,
  match answer t with
  | inr a => (Ret a, t ++ [e])
  | inl x => (Raise x, t ++ [e])
  end.

Definition try_except_M {A} (body : M A) (handler : exn → option (M A)) : M A := λ t,
  match body t with
  | (Raise e, t') =>
      match handler e with Some h => h t' | None => (Raise e, t') end
  | r => r
  end.

(** The exit status of the process: 0 when [main] returns, 1 after an
    uncaught exception, and the low 8 bits of the argument of [sys.exit]
    (the status a POSIX parent sees: [sys.exit(-9)] ends with 247). *)
Definition exit_status {A} (o : outcome A) : Z :=
  match o with
  | Ret _ => 0
  | SysExit code => code mod 256
  | Raise _ => 1
  end.

(** ** Command line *)

(** The command line after the program name, one item per recognised
    option with its value. Anything else (an unknown option, an option
    without its value, a positional argument) is an argparse error of its
    own and is left out. *)
Inductive cli_arg :=
| OptDirectory (v : list N)
| OptSbomIn (v : list N)
| OptSbomOut (v : list N)
| OptReportOut (v : list N)
| OptHelp.

(** [args]: the two grouped options default to [None]. *)
Record namespace := Namespace {
  directory : option (list N);
  sbom_in : option (list N);
  sbom_out : list N;
  report_out : list N;
}.

Definition defaults : namespace :=
  {| directory := None; sbom_in := None;
     sbom_out := py "sbom.json";
     report_out := py "dependency_confusion_report.txt" |}.

(** [parser.error(msg)]: usage and message on stderr, exit status 2. *)
Definition parser_error {A} (msg : list N) : M A :=
  emit (ArgparseError msg);; sys_exit 2.

(** Model of [parser.parse_args()] for this parser (argparse is library
    code): the options are taken from left to right; [-h] prints the help
    and exits with 0; an option of the mutually exclusive group is refused
    when the other one was seen; at the end one of the group is required. *)
Fixpoint parse_from (argv : list cli_arg) (ns : namespace) : M namespace :=
  match argv with
  | [] =>
      match directory ns, sbom_in ns with
      | None, None =>
          parser_error (py "one of the arguments --directory --sbom-in is required")
      | _, _ => mret ns
      end
  | OptHelp :: _ => emit PrintHelp;; sys_exit 0
  | OptDirectory v :: argv' =>
      match sbom_in ns with
      | Some _ =>
          parser_error (py "argument --directory: not allowed with argument --sbom-in")
      | None =>
          parse_from argv'
            {| directory := Some v; sbom_in := sbom_in ns;
               sbom_out := sbom_out ns; report_out := report_out ns |}
      end
  | OptSbomIn v :: argv' =>
      match directory ns with
      | Some _ =>
          parser_error (py "argument --sbom-in: not allowed with argument --directory")
      | None =>
          parse_from argv'
            {| directory := directory ns; sbom_in := Some v;
               sbom_out := sbom_out ns; report_out := report_out ns |}
      end
  | OptSbomOut v :: argv' =>
      parse_from argv'
        {| directory := directory ns; sbom_in := sbom_in ns;
           sbom_out := v; report_out := report_out ns |}
  | OptReportOut v :: argv' =>
      parse_from argv'
        {| directory := directory ns; sbom_in := sbom_in ns;
           sbom_out := sbom_out ns; report_out := v |}
  end.

Definition parse_args (argv : list cli_arg) : M namespace :=
  parse_from argv defaults.

(** ** The script *)

Section Script.

Variable env : environment.

Definition run (cmd : list (list N)) : M unit :=
  call (SubprocessRun cmd) (λ t, subprocess_run env t cmd).

Definition check_trivy : M unit :=
  try_except_M
    (run [py "trivy"; py "--version"])
    (λ e, match e with
          | CalledProcessError _ _ | FileNotFoundError _ =>
              Some (eprint (py "Error: Trivy is not installed or not on your PATH.");;
                    sys_exit 1)
          | _ => None
          end).

Definition generate_sbom (target_dir sbom_path : list N) : M unit :=
  let cmd := [py "trivy"; py "fs"; py "--format"; py "cyclonedx"; py "-o";
              sbom_path; target_dir] in
  print (py "Generating SBOM -> " ++ sbom_path);;
  try_except_M
    (run cmd)
    (λ e, match e with
          | CalledProcessError returncode _ =>
              Some (eprint (py "Error: Trivy SBOM generation failed (exit code "
                            ++ of_Z returncode ++ py ").");;
                    sys_exit returncode)
          | _ => None
          end).

(** [comp.get("purl") ... if comp.get("purl")]: the purl of a component
    that has a non-empty one. *)
Definition truthy_purl (comp : component) : option (list N) :=
  match purl comp with
  | Some p => if truthy p then Some p else None
  | None => None
  end.

(** [{comp.get("purl") for comp in components if comp.get("purl")}] *)
Definition purl_set (comps : list component) : gset (list N) :=
  list_to_set (omap truthy_purl comps).

Definition parse_purls (sbom_path : list N) : M (list (list N)) :=
  try_except_M
    (data ← call (JsonLoad sbom_path) (λ t, json_load env t sbom_path);
     let comps := default [] (components data) in
     mret (sorted (purl_set comps)))
    (λ e, match e with
          | JSONDecodeError _ | FileNotFoundError _ =>
              Some (eprint (py "Error: Failed to parse SBOM file '" ++ sbom_path
                            ++ py "': " ++ exn_str e);;
                    sys_exit 1)
          | _ => None
          end).

(** The URL of the lookup, [None] where the source returns early. *)
Definition registry_url (ecosystem name : list N) : option (list N) :=
  if decide (ecosystem = py "pypi") then
    Some (py "https://pypi.org/pypi/" ++ name ++ py "/json")
  else if decide (ecosystem = py "npm") then
    Some (py "https://registry.npmjs.org/" ++ name)
  else None.

(** [Some true]: exists; [Some false]: does not; [None]: error or
    unsupported. *)
Definition check_public_registry (ecosystem name : list N) : M (option bool) :=
  try_except_M
    (match registry_url ecosystem name with
     | None => mret None
     | Some url =>
         status_code ← call (RequestsGet url 10) (λ t, requests_get env t url);
         if decide (status_code = 404) then mret (Some false)
         else if decide (status_code = 200) then mret (Some true)
         else
           eprint (py "Warning: Unexpected status " ++ of_Z status_code
                   ++ py " for " ++ ecosystem ++ py "/" ++ name);;
           mret None
     end)
    (λ e, match e with
          | RequestException _ =>
              Some (eprint (py "Error: Network error when checking " ++ ecosystem
                            ++ py "/" ++ name ++ py ": " ++ exn_str e);;
                    mret None)
          | _ => None
          end).

(** The line appended to [report_lines] for one checked package. *)
Definition report_line (eco name : list N) (exists_ : option bool) : list N :=
  match exists_ with
  | Some false => py "[OK]   " ++ ljust 5 eco ++ py " " ++ name ++ py " not found publicly"
  | Some true =>
      py "[WARN] " ++ ljust 5 eco ++ py " " ++ name
      ++ py " EXISTS publicly - potential collision"
  | None =>
      py "[INFO] " ++ ljust 5 eco ++ py " " ++ name
      ++ py " unknown status or unsupported ecosystem"
  end.

(** [not eco or not name] keeps the pair that passes the test. *)
Definition valid_pair (r : option (list N) * option (list N))
  : option (list N * list N) :=
  match r with
  | (Some eco, Some name) =>
      if truthy eco && truthy name then Some (eco, name) else None
  | _ => None
  end.

(** The [for purl in purls] loop of [main], started with the lines
    collected so far. *)
Fixpoint check_purls (purls : list (list N)) (report_lines : list (list N))
  : M (list (list N)) :=
  match purls with
  | [] => mret report_lines
  | purl :: purls' =>
      r ← lift (extract_pkg_info purl);
      match valid_pair r with
      | None =>
          eprint (py "Skipping invalid PURL: " ++ purl);;
          check_purls purls' report_lines
      | Some (eco, name) =>
          exists_ ← check_public_registry eco name;
          check_purls purls' (report_lines ++ [report_line eco name exists_])
      end
  end.

(** The last block of [main]. Every exception of the write is an
    [Exception]. *)
Definition write_report (report_out : list N) (report_lines : list (list N)) : M unit :=
  let content := join [newline] report_lines in
  try_except_M
    (call (WriteText report_out content) (λ t, write_text env t report_out content);;
     print (py "Dependency confusion report written to " ++ report_out))
    (λ e, Some (eprint (py "Error: Unable to write report file '" ++ report_out
                        ++ py "': " ++ exn_str e);;
                sys_exit 1)).

(** [str(args.directory)] *)
Definition path_str (p : option (list N)) : list N := default (py "None") p.

Definition main (argv : list cli_arg) : M unit :=
  match argv with
  | [] => emit PrintHelp;; sys_exit 1
  | _ :: _ =>
      args ← parse_args argv;
      sbom_path ←
        match sbom_in args with
        | Some p => mret p
        | None =>
            check_trivy;;
            generate_sbom (path_str (directory args)) (sbom_out args);;
            mret (sbom_out args)
        end;
      purls ← parse_purls sbom_path;
      match purls with
      | [] => eprint (py "No PURLs found in SBOM.")
      | _ :: _ => mret ()
      end;;
      report_lines ← check_purls purls [];
      write_report (report_out args) report_lines
  end.

(** The whole process, from an empty trace. *)
Definition run_main (argv : list cli_arg) : outcome unit * list event :=
  main argv [].

End Script.

(** * Vocabulary of the properties *)

(** Closes [c ∉ l] for a concrete character and string. *)
Ltac absent := apply (bool_decide_unpack _); vm_compute; exact I.

(** The shape the parser accepts: a [:] followed, somewhere later, by a [/]. *)
Definition well_shaped (purl : list N) : Prop :=
  ∃ scheme eco rest, purl = scheme ++ colon :: eco ++ slash :: rest.

(** A component counted in K: it carries a non-empty [purl]. *)
Definition carries_purl (comp : component) : bool :=
  match purl comp with
  | Some (_ :: _) => true
  | _ => false
  end.

(** Unfolds the monad of the script in the goal. *)
Ltac unfold_M :=
  unfold try_except_M, call, lift, sys_exit, eprint, print, emit,
    mbind, M_bind, mret, M_ret in *.

(** The only exceptions of a request are [RequestException]s. *)
Definition network_errors_only (env : environment) : Prop :=
  ∀ t url e, requests_get env t url = inl e → ∃ msg, e = RequestException msg.

(** The (ecosystem, name) the loop checks for a purl; [None] for a purl it
    skips. *)
Definition checked_identity (purl : list N) : option (list N * list N) :=
  match extract_pkg_info purl with
  | Ret r => valid_pair r
  | _ => None
  end.

(** The command line of the scan in [generate_sbom]. *)
Definition trivy_fs (target_dir sbom_path : list N) : list (list N) :=
  [py "trivy"; py "fs"; py "--format"; py "cyclonedx"; py "-o"; sbom_path; target_dir].

(** [main] once the command line is parsed. *)
Definition pipeline (env : environment) (args : namespace) : M unit :=
  sbom_path ←
    match sbom_in args with
    | Some p => mret p
    | None =>
        check_trivy env;;
        generate_sbom env (path_str (directory args)) (sbom_out args);;
        mret (sbom_out args)
    end;
  purls ← parse_purls env sbom_path;
  match purls with
  | [] => eprint (py "No PURLs found in SBOM.")
  | _ :: _ => mret ()
  end;;
  report_lines ← check_purls env purls [];
  write_report env (report_out args) report_lines.

(** The file the purls are read from. *)
Definition sbom_source (args : namespace) : list N :=
  match sbom_in args with
  | Some p => p
  | None => sbom_out args
  end.

(** The first stage succeeds: an SBOM was supplied, or Trivy is there and
    the scan completes. *)
Definition sbom_resolved (env : environment) (args : namespace) : Prop :=
  is_Some (sbom_in args)
  ∨ ∀ t cmd, subprocess_run env t cmd = inr ().

(** What a command line supplies. *)
Definition gives_directory (a : cli_arg) : bool :=
  match a with OptDirectory _ => true | _ => false end.
Definition gives_sbom_in (a : cli_arg) : bool :=
  match a with OptSbomIn _ => true | _ => false end.
Definition gives_help (a : cli_arg) : bool :=
  match a with OptHelp => true | _ => false end.

Definition supplies_directory (argv : list cli_arg) : bool := existsb gives_directory argv.
Definition supplies_sbom_in (argv : list cli_arg) : bool := existsb gives_sbom_in argv.
Definition asks_help (argv : list cli_arg) : bool := existsb gives_help argv.

(** A trace without process, file or network events. *)
Definition no_io (t : list event) : Prop := Forall (λ e, is_io e = false) t.

(** Both options of the group are on the way: one is already in the
    namespace and the other follows, or both follow. *)
Definition conflicting (ns : namespace) (argv : list cli_arg) : Prop :=
  (is_Some (directory ns) ∨ supplies_directory argv = true)
  ∧ (is_Some (sbom_in ns) ∨ supplies_sbom_in argv = true).

(** [main] from [parse_purls] on. *)
Definition scan_and_report (env : environment) (sbom_path report_out : list N) : M unit :=
  purls ← parse_purls env sbom_path;
  match purls with
  | [] => eprint (py "No PURLs found in SBOM.")
  | _ :: _ => mret ()
  end;;
  report_lines ← check_purls env purls [];
  write_report env report_out report_lines.


(** ** Concrete worlds *)

Module Scenario.

(** The end-to-end scenario: one pypi package and the same npm purl twice. *)
Definition doc : sbom :=
  Sbom (Some [Component (Some (py "pkg:pypi/requests@2.31.0"));
              Component (Some (py "pkg:npm/left-pad@1.0.0"));
              Component (Some (py "pkg:npm/left-pad@1.0.0"))]).


(** Registries where [requests] exists and [left-pad] does not. *)
Definition registry (url : list N) : exn + Z :=
  if decide (url = py "https://pypi.org/pypi/requests/json") then inr 200
  else if decide (url = py "https://registry.npmjs.org/left-pad") then inr 404
  else inr 500.

(** A world where Trivy works, the SBOM file holds [data] and the report
    can be written. *)
Definition world (data : sbom) : environment :=
  {| subprocess_run := λ _ _, inr ();
     json_load := λ _ _, inr data;
     requests_get := λ _ url, registry url;
     write_text := λ _ _ _, inr () |}.




(** Every request times out. *)
Definition offline : environment :=
  {| subprocess_run := λ _ _, inr ();
     json_load := λ _ _, inr doc;
     requests_get := λ _ _, inl (RequestException (py "timed out"));
     write_text := λ _ _ _, inr () |}.

End Scenario.

(** The tag of a line, with the spaces that follow it. *)
Definition tag (exists_ : option bool) : list N :=
  match exists_ with
  | Some false => py "[OK]   "
  | Some true => py "[WARN] "
  | None => py "[INFO] "
  end.

(** The end of a line. *)
Definition ending (exists_ : option bool) : list N :=
  match exists_ with
  | Some false => py " not found publicly"
  | Some true => py " EXISTS publicly - potential collision"
  | None => py " unknown status or unsupported ecosystem"
  end.

(** Padding on the left: spaces before [s], up to width [w]. *)
Definition left_pad (w : nat) (s : list N) : list N :=
  replicate (w - length s)%nat space ++ s.

(** The line with the ecosystem padded on the left to a column of width 5. *)
Definition left_padded_line (eco name : list N) (exists_ : option bool) : list N :=
  tag exists_ ++ left_pad 5 eco ++ [space] ++ name ++ ending exists_.

(** The namespaces of [--sbom-in sbom.json] and of [--directory project]. *)
Definition sbom_in_args : namespace :=
  {| directory := None; sbom_in := Some (py "sbom.json");
     sbom_out := py "sbom.json";
     report_out := py "dependency_confusion_report.txt" |}.

Definition directory_args : namespace :=
  {| directory := Some (py "project"); sbom_in := None;
     sbom_out := py "sbom.json";
     report_out := py "dependency_confusion_report.txt" |}.

(** ** Vocabulary of the further properties *)

(** [m] only appends events that satisfy [P], however it ends. *)
Definition emits_only {A} (P : event → Prop) (m : M A) : Prop :=
  ∀ t, ∃ o tail, m t = (o, t ++ tail) ∧ Forall P tail.

(** Kinds of events. *)
Definition terminal_event (e : event) : Prop :=
  match e with Stdout _ | Stderr _ => True | _ => False end.
Definition stderr_event (e : event) : Prop :=
  match e with Stderr _ => True | _ => False end.
Definition resolve_event (e : event) : Prop :=
  match e with SubprocessRun _ | Stdout _ | Stderr _ => True | _ => False end.
Definition load_event (e : event) : Prop :=
  match e with JsonLoad _ | Stderr _ => True | _ => False end.
Definition lookup_event (e : event) : Prop :=
  match e with RequestsGet _ _ | Stderr _ => True | _ => False end.
Definition write_event (e : event) : Prop :=
  match e with WriteText _ _ | Stdout _ | Stderr _ => True | _ => False end.

(** The URLs requested in a trace, in order. *)
Definition requested (t : list event) : list (list N) :=
  omap (λ e, match e with RequestsGet url _ => Some url | _ => None end) t.

(** The files written in a trace, in order. *)
Definition written (t : list event) : list (list N * list N) :=
  omap (λ e, match e with WriteText path content => Some (path, content) | _ => None end) t.

(** The URL the loop requests for a purl: none for a purl it skips and
    for an ecosystem without a registry. *)
Definition lookup_url (purl : list N) : option (list N) :=
  match checked_identity purl with
  | Some (eco, name) => registry_url eco name
  | None => None
  end.

(** An exception the lookup does not handle. *)
Definition not_request_exception (e : exn) : Prop :=
  match e with RequestException _ => False | _ => True end.

(** An exception [parse_purls] does not handle. *)
Definition not_parse_error (e : exn) : Prop :=
  match e with JSONDecodeError _ | FileNotFoundError _ => False | _ => True end.

(** The last value given for [--report-out] and for [--sbom-out]. *)
Fixpoint last_report_out (argv : list cli_arg) (current : list N) : list N :=
  match argv with
  | [] => current
  | OptReportOut v :: argv' => last_report_out argv' v
  | _ :: argv' => last_report_out argv' current
  end.

Fixpoint last_sbom_out (argv : list cli_arg) (current : list N) : list N :=
  match argv with
  | [] => current
  | OptSbomOut v :: argv' => last_sbom_out argv' v
  | _ :: argv' => last_sbom_out argv' current
  end.

(** The end-to-end document with its components in another order and one
    more duplicate. *)
Definition doc_shuffled : sbom :=
  Sbom (Some [Component (Some (py "pkg:npm/left-pad@1.0.0"));
              Component None;
              Component (Some (py "pkg:pypi/requests@2.31.0"));
              Component (Some []);
              Component (Some (py "pkg:pypi/requests@2.31.0"))]).


(** Trivy is not installed. *)
Definition no_trivy : environment :=
  {| subprocess_run := λ _ _,
       inl (FileNotFoundError (py "[Errno 2] No such file or directory: 'trivy'"));
     json_load := λ _ _, inr Scenario.doc;
     requests_get := λ _ url, Scenario.registry url;
     write_text := λ _ _ _, inr () |}.

(** The SBOM file cannot be read. *)
Definition unreadable_sbom : environment :=
  {| subprocess_run := λ _ _, inr ();
     json_load := λ _ _, inl (OtherException (py "[Errno 13] Permission denied: 'sbom.json'"));
     requests_get := λ _ url, Scenario.registry url;
     write_text := λ _ _ _, inr () |}.

(** The npm registry answers; the request to pypi fails outside of
    [requests]' own exceptions. *)
Definition flaky_client : environment :=
  {| subprocess_run := λ _ _, inr ();
     json_load := λ _ _, inr Scenario.doc;
     requests_get := λ _ url,
       if decide (url = py "https://pypi.org/pypi/requests/json")
       then inl (OtherException (py "unexpected failure"))
       else Scenario.registry url;
     write_text := λ _ _ _, inr () |}.


(** * Properties *)

(** ** Splitting *)

Section Cut.

Implicit Types (sep : N) (s a b : list N).

Lemma cut_app sep a b : sep ∉ a → cut sep (a ++ sep :: b) = Some (a, b).
Proof.
  induction a as [|c a IH]; intros Hnot; simpl.
  - by rewrite decide_True.
  - apply not_elem_of_cons in Hnot as [Hne Hnot].
    rewrite decide_False by congruence. by rewrite IH.
Qed.

Lemma cut_None sep s : sep ∉ s → cut sep s = None.
Proof.
  induction s as [|c s IH]; intros Hnot; simpl; [done|].
  apply not_elem_of_cons in Hnot as [Hne Hnot].
  rewrite decide_False by congruence. by rewrite IH.
Qed.

Lemma cut_Some_inv sep s a b :
  cut sep s = Some (a, b) → s = a ++ sep :: b ∧ sep ∉ a.
Proof.
  revert a. induction s as [|c s IH]; intros a; simpl; [done|].
  destruct (decide (c = sep)) as [->|Hne].
  - intros [= <- <-]. split; [done | apply not_elem_of_nil].
  - destruct (cut sep s) as [[a' b']|] eqn:Hcut; [|done].
    intros [= <- <-]. destruct (IH a' eq_refl) as [-> Hnot].
    split; [done|]. apply not_elem_of_cons. split; [congruence | done].
Qed.

Lemma cut_None_inv sep s : cut sep s = None → sep ∉ s.
Proof.
  induction s as [|c s IH]; simpl; [intros _; apply not_elem_of_nil|].
  destruct (decide (c = sep)) as [->|Hne]; [done|].
  destruct (cut sep s) as [[a' b']|]; [done|].
  intros _. apply not_elem_of_cons. split; [congruence | by apply IH].
Qed.

(** Whatever precedes an occurrence of [sep], the first cut keeps
    everything that follows that occurrence. *)
Lemma cut_app_any sep a b :
  ∃ a' k, cut sep (a ++ sep :: b) = Some (a', k ++ b).
Proof.
  induction a as [|c a IH]; simpl.
  - exists [], []. by rewrite decide_True.
  - destruct (decide (c = sep)) as [->|Hne].
    + exists [], (a ++ [sep]). by rewrite <- app_assoc.
    + destruct IH as (a' & k & ->). by exists (c :: a'), k.
Qed.

Lemma split1_nonempty sep s : ∃ x l, split1 sep s = x :: l.
Proof. unfold split1. destruct (cut sep s) as [[a b]|]; eauto. Qed.

End Cut.

Example split1_first_only :
  split1 colon (py "pkg:npm/a:b") = [py "pkg"; py "npm/a:b"]
  ∧ split1 colon (py "npm") = [py "npm"]
  ∧ split1 at_sign (py "@1.0.0") = [[]; py "1.0.0"].
Proof. by vm_compute. Qed.

Example str_lt_code_points :
  Str.lt (py "a") (py "ab") ∧ Str.lt (py "Z") (py "a")
  ∧ Str.lt (py "pkg:npm/left-pad@1.0.0") (py "pkg:pypi/requests@2.31.0")
  ∧ ¬ Str.lt (py "b") (py "ab").
Proof. split_and!; by apply (bool_decide_unpack _). Qed.

Example ljust_pads_right :
  ljust 5 (py "npm") = py "npm  " ∧ ljust 5 (py "pypi") = py "pypi "
  ∧ ljust 5 (py "golang") = py "golang".
Proof. by vm_compute. Qed.

Example extract_pkg_info_examples :
  extract_pkg_info (py "pkg:pypi/requests@2.31.0") = Ret (Some (py "pypi"), Some (py "requests"))
  ∧ extract_pkg_info (py "pkg:maven/org.apache/commons@1.0") = Ret (Some (py "maven"), Some (py "org.apache/commons"))
  ∧ extract_pkg_info (py "npm/left-pad") = Ret (None, None)
  ∧ extract_pkg_info (py "pkg:npm") = Ret (None, None)
  ∧ extract_pkg_info (py "pkg:/name") = Ret (Some [], Some (py "name"))
  ∧ extract_pkg_info (py "pkg:npm/@1.0.0") = Ret (Some (py "npm"), Some []).
Proof. by vm_compute. Qed.

(** ** Identity parsing *)

(** The parser in terms of the two cuts. *)
Lemma extract_pkg_info_cut purl :
  extract_pkg_info purl =
    match cut colon purl with
    | Some (_, rest) =>
        match cut slash rest with
        | Some (eco, remainder) =>
            match cut at_sign remainder with
            | Some (name, _) => Ret (Some eco, Some name)
            | None => Ret (Some eco, Some remainder)
            end
        | None => Ret (None, None)
        end
    | None => Ret (None, None)
    end.
Proof.
  unfold extract_pkg_info, split1.
  destruct (cut colon purl) as [[scheme rest]|]; [|done]. simpl.
  destruct (cut slash rest) as [[eco remainder]|]; [|done]. simpl.
  by destruct (cut at_sign remainder) as [[name version]|].
Qed.

Lemma well_shaped_cuts purl :
  well_shaped purl ↔
  ∃ scheme rest eco remainder,
    cut colon purl = Some (scheme, rest) ∧ cut slash rest = Some (eco, remainder).
Proof.
  split.
  - intros (a & b & c & ->).
    destruct (cut_app_any colon a (b ++ slash :: c)) as (scheme & k & Hc).
    rewrite Hc. rewrite app_assoc.
    destruct (cut_app_any slash (k ++ b) c) as (eco & k' & Hs).
    by exists scheme, ((k ++ b) ++ slash :: c), eco, (k' ++ c).
  - intros (scheme & rest & eco & remainder & Hc & Hs).
    apply cut_Some_inv in Hc as [-> _]. apply cut_Some_inv in Hs as [-> _].
    by exists scheme, eco, remainder.
Qed.

Lemma extract_pkg_info_shaped purl :
  well_shaped purl → ∃ eco name, extract_pkg_info purl = Ret (Some eco, Some name).
Proof.
  intros (scheme & rest & eco & remainder & Hc & Hs)%well_shaped_cuts.
  rewrite extract_pkg_info_cut, Hc, Hs.
  destruct (cut at_sign remainder) as [[name version]|]; eauto.
Qed.

Lemma extract_pkg_info_unshaped purl :
  ¬ well_shaped purl → extract_pkg_info purl = Ret (None, None).
Proof.
  intros Hno. rewrite extract_pkg_info_cut.
  destruct (cut colon purl) as [[scheme rest]|] eqn:Hc; [|done].
  destruct (cut slash rest) as [[eco remainder]|] eqn:Hs; [|done].
  destruct Hno. apply well_shaped_cuts. eauto 10.
Qed.

(** C3: for a purl [<scheme>:<ecosystem>/<name>[@<version>]] (no [:] in the
    scheme, no [/] in the ecosystem, no [@] in the name) the parser drops
    the scheme at the first [:], takes the ecosystem up to the first [/]
    and cuts what follows at the first [@]: it returns (ecosystem, name),
    with or without a version. In particular [pkg:npm/left-pad@1.0.0]
    gives ("npm", "left-pad"). *)
Theorem extract_pkg_info_purl (scheme eco name : list N) :
  colon ∉ scheme → slash ∉ eco → at_sign ∉ name →
  extract_pkg_info (scheme ++ colon :: eco ++ slash :: name)
    = Ret (Some eco, Some name)
  ∧ (∀ version,
      extract_pkg_info (scheme ++ colon :: eco ++ slash :: name ++ at_sign :: version)
        = Ret (Some eco, Some name))
  ∧ extract_pkg_info (py "pkg:npm/left-pad@1.0.0")
      = Ret (Some (py "npm"), Some (py "left-pad")).
Proof.
  intros Hscheme Heco Hname. split_and!.
  - rewrite extract_pkg_info_cut, (cut_app _ _ _ Hscheme), (cut_app _ _ _ Heco).
    by rewrite (cut_None _ _ Hname).
  - intros version.
    rewrite extract_pkg_info_cut, (cut_app _ _ _ Hscheme), (cut_app _ _ _ Heco).
    by rewrite (cut_app _ _ _ Hname).
  - reflexivity.
Qed.

Lemma extract_pkg_info_purl_witness :
  extract_pkg_info (py "pkg" ++ colon :: py "npm" ++ slash :: py "left-pad")
    = Ret (Some (py "npm"), Some (py "left-pad"))
  ∧ (∀ version,
      extract_pkg_info (py "pkg" ++ colon :: py "npm" ++ slash :: py "left-pad"
                        ++ at_sign :: version)
        = Ret (Some (py "npm"), Some (py "left-pad")))
  ∧ extract_pkg_info (py "pkg:npm/left-pad@1.0.0")
      = Ret (Some (py "npm"), Some (py "left-pad")).
Proof.
  apply (extract_pkg_info_purl (py "pkg") (py "npm") (py "left-pad")); absent.
Defined.

(** C9: the parser is total. On every string it returns; it returns a pair
    of strings when the string has a [:] followed later by a [/], and
    [(None, None)] otherwise. It never raises and never exits. *)
Theorem extract_pkg_info_total (purl : list N) :
  (well_shaped purl ∧ ∃ eco name, extract_pkg_info purl = Ret (Some eco, Some name))
  ∨ (¬ well_shaped purl ∧ extract_pkg_info purl = Ret (None, None)).
Proof.
  rewrite extract_pkg_info_cut.
  destruct (cut colon purl) as [[scheme rest]|] eqn:Hc.
  - destruct (cut slash rest) as [[eco remainder]|] eqn:Hs.
    + left. split; [apply well_shaped_cuts; eauto 10|].
      destruct (cut at_sign remainder) as [[name version]|]; eauto.
    + right. split; [|done].
      intros (? & ? & ? & ? & ? & ?)%well_shaped_cuts. congruence.
  - right. split; [|done].
    intros (? & ? & ? & ? & ? & ?)%well_shaped_cuts. congruence.
Qed.

(** ** Purl extraction *)

Global Instance str_le_total : Total Str.le.
Proof.
  intros s1 s2. unfold Str.le.
  destruct (decide (Str.lt s2 s1)) as [H21|H21]; [right|by left].
  intros H12. apply (irreflexivity Str.lt s1). by trans s2.
Qed.

Global Instance str_le_trans : Transitive Str.le.
Proof.
  intros s1 s2 s3 H12 H23 H31. unfold Str.le in *.
  destruct (trichotomy Str.lt s1 s2) as [Hlt | [-> | Hgt]]; [|done..].
  apply H23. by trans s1.
Qed.

Lemma str_le_ne_lt s1 s2 : Str.le s1 s2 → s1 ≠ s2 → Str.lt s1 s2.
Proof.
  intros Hle Hne. by destruct (trichotomy Str.lt s1 s2) as [Hlt | [-> | Hgt]].
Qed.

Lemma StronglySorted_le_lt (l : list (list N)) :
  StronglySorted Str.le l → NoDup l → StronglySorted Str.lt l.
Proof.
  induction 1 as [|x l Hl IH Hx]; intros Hnd; [constructor|].
  apply NoDup_cons in Hnd as [Hnot Hnd]. constructor; [by apply IH|].
  rewrite Forall_forall in Hx |- *. intros y Hy.
  apply str_le_ne_lt; [by apply Hx | by intros ->].
Qed.

(** [sorted] of a set lists its elements in strictly ascending order. *)
Lemma sorted_spec (s : gset (list N)) :
  StronglySorted Str.lt (sorted s) ∧ NoDup (sorted s) ∧ ∀ p, p ∈ sorted s ↔ p ∈ s.
Proof.
  assert (Hperm : sorted s ≡ₚ elements s) by apply merge_sort_Permutation.
  assert (Hnd : NoDup (sorted s)) by (rewrite Hperm; apply NoDup_elements).
  split_and!; [|done|].
  - apply StronglySorted_le_lt; [|done]. apply StronglySorted_merge_sort; apply _.
  - intros p. by rewrite Hperm, elem_of_elements.
Qed.

Lemma truthy_purl_Some comp p :
  truthy_purl comp = Some p ↔ purl comp = Some p ∧ p ≠ [].
Proof.
  unfold truthy_purl. destruct (purl comp) as [[|c q]|]; simpl.
  - split; [done | by intros [[= <-] ?]].
  - split; [by intros [= <-] | by intros [? _]].
  - split; [done | by intros [? _]].
Qed.

Lemma elem_of_purl_set comps p :
  p ∈ purl_set comps ↔ ∃ comp, comp ∈ comps ∧ purl comp = Some p ∧ p ≠ [].
Proof.
  unfold purl_set. rewrite elem_of_list_to_set, list_elem_of_omap.
  by setoid_rewrite truthy_purl_Some.
Qed.

Lemma omap_truthy_purl_length comps :
  length (omap truthy_purl comps) = length (filter carries_purl comps).
Proof.
  induction comps as [|[[[|c q]|]] comps IH]; [done|..].
  - by rewrite filter_cons_False by (by intros []).
  - rewrite filter_cons_True by done. simpl. by f_equal.
  - by rewrite filter_cons_False by (by intros []).
Qed.

Lemma sorted_purl_set_length comps :
  (length (sorted (purl_set comps)) ≤ length (filter carries_purl comps))%nat.
Proof.
  rewrite <- omap_truthy_purl_length. apply submseteq_length.
  destruct (sorted_spec (purl_set comps)) as (_ & Hnd & Hin).
  apply NoDup_submseteq; [done|]. intros p Hp%Hin.
  unfold purl_set in Hp. by apply elem_of_list_to_set in Hp.
Qed.

(** C2: when the SBOM loads, with N components of which K carry a
    non-empty purl, [parse_purls] returns the non-empty purls of the
    components, each once, in strictly ascending lexical order, and there
    are at most K (and so at most N) of them; components without a purl
    contribute nothing. *)
Theorem parse_purls_sorted_unique
    (env : environment) (sbom_path : list N) (t : list event) (data : sbom) :
  json_load env t sbom_path = inr data →
  let comps := default [] (components data) in
  ∃ purls,
    parse_purls env sbom_path t = (Ret purls, t ++ [JsonLoad sbom_path])
    ∧ StronglySorted Str.lt purls
    ∧ NoDup purls
    ∧ Forall (λ p, p ≠ []) purls
    ∧ (length purls ≤ length (filter carries_purl comps) ≤ length comps)%nat
    ∧ ∀ p, p ∈ purls ↔ ∃ comp, comp ∈ comps ∧ purl comp = Some p ∧ p ≠ [].
Proof.
  intros Hload comps. exists (sorted (purl_set comps)).
  destruct (sorted_spec (purl_set comps)) as (Hsorted & Hnd & Hin).
  split_and!; try done.
  - unfold parse_purls, try_except_M, call, mbind, M_bind. by rewrite Hload.
  - apply Forall_forall. by intros p (comp & _ & _ & Hne)%Hin%elem_of_purl_set.
  - apply sorted_purl_set_length.
  - apply length_filter.
  - intros p. by rewrite Hin, elem_of_purl_set.
Qed.

(** ** Registry lookup *)

Lemma registry_url_supported eco name :
  registry_url (py "pypi") name = Some (py "https://pypi.org/pypi/" ++ name ++ py "/json")
  ∧ registry_url (py "npm") name = Some (py "https://registry.npmjs.org/" ++ name)
  ∧ (eco ≠ py "pypi" → eco ≠ py "npm" → registry_url eco name = None).
Proof.
  split_and!; [done..|]. intros Hpypi Hnpm. unfold registry_url.
  by rewrite !decide_False.
Qed.

(** The lookup once the URL is known and the request returned a status. *)
Lemma check_public_registry_status env eco name url status t :
  registry_url eco name = Some url →
  requests_get env t url = inr status →
  check_public_registry env eco name t =
    if decide (status = 404) then (Ret (Some false), t ++ [RequestsGet url 10])
    else if decide (status = 200) then (Ret (Some true), t ++ [RequestsGet url 10])
    else (Ret None,
          (t ++ [RequestsGet url 10])
          ++ [Stderr (py "Warning: Unexpected status " ++ of_Z status
                      ++ py " for " ++ eco ++ py "/" ++ name)]).
Proof.
  intros Hurl Hget. unfold check_public_registry. rewrite Hurl. unfold_M.
  rewrite Hget. by repeat case_decide.
Qed.

(** The lookup once the URL is known and the request raised. *)
Lemma check_public_registry_raise env eco name url e t :
  registry_url eco name = Some url →
  requests_get env t url = inl e →
  check_public_registry env eco name t =
    match e with
    | RequestException msg =>
        (Ret None,
         (t ++ [RequestsGet url 10])
         ++ [Stderr (py "Error: Network error when checking " ++ eco
                     ++ py "/" ++ name ++ py ": " ++ msg)])
    | _ => (Raise e, t ++ [RequestsGet url 10])
    end.
Proof.
  intros Hurl Hget. unfold check_public_registry. rewrite Hurl. unfold_M.
  rewrite Hget. by destruct e.
Qed.

Lemma check_public_registry_unsupported env eco name t :
  registry_url eco name = None → check_public_registry env eco name t = (Ret None, t).
Proof. intros Hurl. unfold check_public_registry. by rewrite Hurl. Qed.

(** C1: for ecosystem [pypi] or [npm] and any name the check performs
    exactly one GET (timeout 10) on the registry URL of the name and maps
    the status: 404 gives [False] (not found publicly), 200 gives [True]
    (exists publicly), any other status gives [None] (unknown) after a
    warning on stderr that names the status, the ecosystem and the name. A
    [RequestException] (timeout, connection error, DNS failure) gives
    [None] after an error on stderr, and the call returns normally. For any
    other ecosystem the check returns [None] at once: no request, no
    message. *)
Theorem check_public_registry_verdict
    (env : environment) (eco name : list N) (t : list event) :
  (eco = py "pypi" ∨ eco = py "npm" →
   ∃ url,
     registry_url eco name = Some url
     ∧ (∀ status, requests_get env t url = inr status →
          (status = 404 →
             check_public_registry env eco name t
               = (Ret (Some false), t ++ [RequestsGet url 10]))
          ∧ (status = 200 →
             check_public_registry env eco name t
               = (Ret (Some true), t ++ [RequestsGet url 10]))
          ∧ (status ≠ 404 → status ≠ 200 →
             check_public_registry env eco name t
               = (Ret None,
                  t ++ [RequestsGet url 10;
                        Stderr (py "Warning: Unexpected status " ++ of_Z status
                                ++ py " for " ++ eco ++ py "/" ++ name)])))
     ∧ (∀ msg, requests_get env t url = inl (RequestException msg) →
          check_public_registry env eco name t
            = (Ret None,
               t ++ [RequestsGet url 10;
                     Stderr (py "Error: Network error when checking " ++ eco
                             ++ py "/" ++ name ++ py ": " ++ msg)])))
  ∧ (eco ≠ py "pypi" → eco ≠ py "npm" →
     check_public_registry env eco name t = (Ret None, t)).
Proof.
  destruct (registry_url_supported eco name) as (Hpypi & Hnpm & Hother).
  split.
  - intros Heco.
    assert (∃ url, registry_url eco name = Some url) as [url Hurl]
      by (destruct Heco as [-> | ->]; eauto).
    exists url. split_and!; [done|..].
    + intros status Hget.
      rewrite (check_public_registry_status _ _ _ _ _ _ Hurl Hget).
      split_and!.
      * intros ->. by rewrite decide_True.
      * intros ->. by rewrite decide_False, decide_True.
      * intros H404 H200. rewrite !decide_False by done. by rewrite <- app_assoc.
    + intros msg Hget.
      rewrite (check_public_registry_raise _ _ _ _ _ _ Hurl Hget).
      by rewrite <- app_assoc.
  - intros H1 H2. apply check_public_registry_unsupported. by apply Hother.
Qed.

(** ** The loop over the purls *)

(** A purl the loop skips. *)
Lemma check_purls_skip env purl purls lines t r :
  extract_pkg_info purl = Ret r → valid_pair r = None →
  check_purls env (purl :: purls) lines t
    = check_purls env purls lines (t ++ [Stderr (py "Skipping invalid PURL: " ++ purl)]).
Proof. intros Hx Hv. simpl. unfold_M. by rewrite Hx, Hv. Qed.

(** A purl the loop checks. *)
Lemma check_purls_check env purl purls lines t r eco name v t' :
  extract_pkg_info purl = Ret r → valid_pair r = Some (eco, name) →
  check_public_registry env eco name t = (Ret v, t') →
  check_purls env (purl :: purls) lines t
    = check_purls env purls (lines ++ [report_line eco name v]) t'.
Proof. intros Hx Hv Hc. simpl. unfold_M. by rewrite Hx, Hv, Hc. Qed.

Lemma extract_pkg_info_returns purl : ∃ r, extract_pkg_info purl = Ret r.
Proof.
  rewrite extract_pkg_info_cut.
  destruct (cut colon purl) as [[scheme rest]|]; [|eauto].
  destruct (cut slash rest) as [[eco remainder]|]; [|eauto].
  destruct (cut at_sign remainder) as [[name version]|]; eauto.
Qed.

Lemma check_public_registry_returns env eco name t :
  network_errors_only env →
  ∃ v t', check_public_registry env eco name t = (Ret v, t').
Proof.
  intros Hnet. destruct (registry_url eco name) as [url|] eqn:Hurl.
  - destruct (requests_get env t url) as [e|status] eqn:Hget.
    + destruct (Hnet _ _ _ Hget) as [msg ->].
      rewrite (check_public_registry_raise _ _ _ _ _ _ Hurl Hget). eauto.
    + rewrite (check_public_registry_status _ _ _ _ _ _ Hurl Hget).
      repeat case_decide; eauto.
  - rewrite (check_public_registry_unsupported _ _ _ _ Hurl). eauto.
Qed.

(** The loop returns; it has added one line for each purl it checks, in the
    order of the purls, and none for the others. *)
Lemma check_purls_returns env purls :
  network_errors_only env →
  ∀ lines t, ∃ verdicts t',
    check_purls env purls lines t
      = (Ret (lines ++ zip_with (λ id v, report_line id.1 id.2 v)
                         (omap checked_identity purls) verdicts), t')
    ∧ length verdicts = length (omap checked_identity purls).
Proof.
  intros Hnet. induction purls as [|purl purls IH]; intros lines t.
  - exists [], t. by rewrite app_nil_r.
  - destruct (extract_pkg_info_returns purl) as [r Hx].
    assert (Hid : checked_identity purl = valid_pair r)
      by (unfold checked_identity; by rewrite Hx).
    destruct (valid_pair r) as [[eco name]|] eqn:Hv.
    + destruct (check_public_registry_returns env eco name t Hnet) as (v & t1 & Hc).
      rewrite (check_purls_check _ _ _ _ _ _ _ _ _ _ Hx Hv Hc).
      destruct (IH (lines ++ [report_line eco name v]) t1) as (vs & t' & -> & Hlen).
      exists (v :: vs), t'. simpl. rewrite Hid. simpl.
      split; [by rewrite <- app_assoc | by rewrite Hlen].
    + rewrite (check_purls_skip _ _ _ _ _ _ Hx Hv).
      destruct (IH lines (t ++ [Stderr (py "Skipping invalid PURL: " ++ purl)]))
        as (vs & t' & -> & Hlen).
      exists vs, t'. simpl. by rewrite Hid.
Qed.

(** C5: a purl without the expected shape (no [:], or no [/] after the
    first [:]) parses to [(None, None)]; the loop then logs it as invalid on
    stderr, adds no report line, performs no lookup, raises nothing, and
    goes on with the remaining purls. When the lookups of the remaining
    purls raise nothing but network errors, the loop returns. *)
Theorem check_purls_skips_unshaped
    (env : environment) (purl : list N) (purls lines : list (list N)) (t : list event) :
  ¬ well_shaped purl →
  extract_pkg_info purl = Ret (None, None)
  ∧ check_purls env (purl :: purls) lines t
      = check_purls env purls lines (t ++ [Stderr (py "Skipping invalid PURL: " ++ purl)])
  ∧ (network_errors_only env →
     ∃ lines' t',
       check_purls env (purl :: purls) lines t = (Ret (lines ++ lines'), t')
       ∧ length lines' = length (omap checked_identity purls)).
Proof.
  intros Hx%extract_pkg_info_unshaped.
  assert (Hskip := check_purls_skip env purl purls lines t _ Hx eq_refl).
  split_and!; [done..|].
  intros Hnet. rewrite Hskip.
  destruct (check_purls_returns env purls Hnet lines
              (t ++ [Stderr (py "Skipping invalid PURL: " ++ purl)]))
    as (verdicts & t' & -> & Hlen).
  eexists _, t'. split; [done|]. by rewrite length_zip_with_l_eq.
Qed.

(** C10: a purl that parses to an empty ecosystem or an empty name (such
    as [pkg:/name] or [pkg:npm/@1.0.0]) is handled like a purl that does not
    parse: logged as invalid on stderr, no lookup, no report line, and the
    loop goes on. *)
Theorem check_purls_skips_empty
    (env : environment) (purl eco name : list N) (purls lines : list (list N))
    (t : list event) :
  extract_pkg_info purl = Ret (Some eco, Some name) →
  eco = [] ∨ name = [] →
  check_purls env (purl :: purls) lines t
    = check_purls env purls lines (t ++ [Stderr (py "Skipping invalid PURL: " ++ purl)]).
Proof.
  intros Hx Hempty. apply (check_purls_skip _ _ _ _ _ _ Hx).
  destruct Hempty as [-> | ->]; [done|]. simpl. by rewrite andb_false_r.
Qed.

(** ** The stages of [main] *)

Lemma bind_ret {A B} (m : M A) (f : A → M B) t a t' :
  m t = (Ret a, t') → (m ≫= f) t = f a t'.
Proof. intros H. unfold mbind, M_bind. by rewrite H. Qed.

Lemma bind_exit {A B} (m : M A) (f : A → M B) t code t' :
  m t = (SysExit code, t') → (m ≫= f) t = (SysExit code, t').
Proof. intros H. unfold mbind, M_bind. by rewrite H. Qed.

Lemma bind_raise {A B} (m : M A) (f : A → M B) t e t' :
  m t = (Raise e, t') → (m ≫= f) t = (Raise e, t').
Proof. intros H. unfold mbind, M_bind. by rewrite H. Qed.

Lemma check_trivy_ok env t :
  subprocess_run env t [py "trivy"; py "--version"] = inr () →
  check_trivy env t = (Ret (), t ++ [SubprocessRun [py "trivy"; py "--version"]]).
Proof. intros H. unfold check_trivy, run. unfold_M. by rewrite H. Qed.

Lemma generate_sbom_ok env target_dir sbom_path t :
  subprocess_run env (t ++ [Stdout (py "Generating SBOM -> " ++ sbom_path)])
    (trivy_fs target_dir sbom_path) = inr () →
  generate_sbom env target_dir sbom_path t
    = (Ret (), t ++ [Stdout (py "Generating SBOM -> " ++ sbom_path);
                     SubprocessRun (trivy_fs target_dir sbom_path)]).
Proof.
  intros H. unfold generate_sbom, run. unfold_M. fold (trivy_fs target_dir sbom_path).
  rewrite H. by rewrite <- app_assoc.
Qed.


Lemma parse_purls_loaded env sbom_path t data :
  json_load env t sbom_path = inr data →
  parse_purls env sbom_path t
    = (Ret (sorted (purl_set (default [] (components data)))), t ++ [JsonLoad sbom_path]).
Proof. intros H. unfold parse_purls. unfold_M. by rewrite H. Qed.


Lemma write_report_ok env report_out lines t :
  write_text env t report_out (join [newline] lines) = inr () →
  write_report env report_out lines t
    = (Ret (), t ++ [WriteText report_out (join [newline] lines);
                     Stdout (py "Dependency confusion report written to " ++ report_out)]).
Proof.
  intros H. unfold write_report. unfold_M. rewrite H. by rewrite <- app_assoc.
Qed.

Lemma write_report_failed env report_out lines t e :
  write_text env t report_out (join [newline] lines) = inl e →
  write_report env report_out lines t
    = (SysExit 1,
       t ++ [WriteText report_out (join [newline] lines);
             Stderr (py "Error: Unable to write report file '" ++ report_out
                     ++ py "': " ++ exn_str e)]).
Proof.
  intros H. unfold write_report. unfold_M. rewrite H. by rewrite <- app_assoc.
Qed.

Lemma main_parsed env argv args t t' :
  argv ≠ [] → parse_args argv t = (Ret args, t') →
  main env argv t = pipeline env args t'.
Proof.
  intros Hne Hparse. destruct argv as [|a argv]; [done|].
  unfold main. by rewrite (bind_ret _ _ _ _ _ Hparse).
Qed.

Lemma main_rejected env argv code t t' :
  argv ≠ [] → parse_args argv t = (SysExit code, t') →
  main env argv t = (SysExit code, t').
Proof.
  intros Hne Hparse. destruct argv as [|a argv]; [done|].
  unfold main. by rewrite (bind_exit _ _ _ _ _ Hparse).
Qed.


(** ** Command-line validation *)

Lemma parser_error_eq {A} msg t :
  parser_error (A:=A) msg t = (SysExit 2, t ++ [ArgparseError msg]).
Proof. done. Qed.

(** Parsing only writes to the terminal. *)
Lemma parse_from_no_io argv : ∀ ns t o t',
  parse_from argv ns t = (o, t') → ∃ tail, t' = t ++ tail ∧ no_io tail.
Proof.
  induction argv as [|a argv IH]; intros ns t o t'; simpl.
  - destruct (directory ns), (sbom_in ns); rewrite ?parser_error_eq;
      unfold mret, M_ret; intros [= <- <-];
      first [ exists []; split; [by rewrite app_nil_r | constructor]
            | eexists; split; [done | by repeat constructor] ].
  - destruct a; try apply IH.
    + destruct (sbom_in ns); [|apply IH]. rewrite parser_error_eq.
      intros [= <- <-]. eexists; split; [done | by repeat constructor].
    + destruct (directory ns); [|apply IH]. rewrite parser_error_eq.
      intros [= <- <-]. eexists; split; [done | by repeat constructor].
    + intros [= <- <-]. eexists; split; [done | by repeat constructor].
Qed.

Lemma parse_from_conflict argv : ∀ ns t,
  ¬ (is_Some (directory ns) ∧ is_Some (sbom_in ns)) →
  conflicting ns argv →
  ∃ code t', parse_from argv ns t = (SysExit code, t')
             ∧ (asks_help argv = false → code = 2).
Proof.
  unfold conflicting, supplies_directory, supplies_sbom_in, asks_help.
  induction argv as [|a argv IH]; intros ns t Hns [Hd Hs]; simpl in *.
  - destruct Hns. by destruct Hd, Hs.
  - destruct a as [v|v|v|v|]; simpl in *.
    + destruct (sbom_in ns) as [p|] eqn:Hin.
      * rewrite parser_error_eq. eauto.
      * apply IH; simpl; [by intros [_ [? [=]]]|].
        split; [by left|]. destruct Hs as [[? [=]]|?]; by right.
    + destruct (directory ns) as [p|] eqn:Hdir.
      * rewrite parser_error_eq. eauto.
      * apply IH; simpl; [by intros [[? [=]] _]|].
        split; [|by left]. destruct Hd as [[? [=]]|?]; by right.
    + by apply IH.
    + by apply IH.
    + by eexists _, _.
Qed.

Lemma parse_from_neither argv : ∀ ns t,
  directory ns = None → sbom_in ns = None →
  supplies_directory argv = false → supplies_sbom_in argv = false →
  ∃ code t', parse_from argv ns t = (SysExit code, t')
             ∧ (asks_help argv = false → code = 2).
Proof.
  unfold supplies_directory, supplies_sbom_in, asks_help.
  induction argv as [|a argv IH]; intros ns t Hdir Hin Hd Hs; simpl in *.
  - rewrite Hdir, Hin, parser_error_eq. eauto.
  - destruct a as [v|v|v|v|]; simpl in *; try done.
    + by apply IH.
    + by apply IH.
    + by eexists _, _.
Qed.

(** Exactly one option of the group, and no [-h]: the command line is
    accepted and nothing is printed. *)
Lemma parse_from_accepts argv : ∀ ns t,
  asks_help argv = false →
  ¬ conflicting ns argv →
  is_Some (directory ns) ∨ is_Some (sbom_in ns)
  ∨ supplies_directory argv = true ∨ supplies_sbom_in argv = true →
  ∃ args, parse_from argv ns t = (Ret args, t)
          ∧ (is_Some (directory args) ↔ is_Some (directory ns) ∨ supplies_directory argv = true)
          ∧ (is_Some (sbom_in args) ↔ is_Some (sbom_in ns) ∨ supplies_sbom_in argv = true).
Proof.
  unfold conflicting, supplies_directory, supplies_sbom_in, asks_help.
  induction argv as [|a argv IH]; intros ns t Hh Hno Hsome; simpl in *.
  - exists ns. split_and!; [|tauto..].
    destruct (directory ns), (sbom_in ns); try done.
    destruct Hsome as [[? [=]]|[[? [=]]|[?|?]]]; done.
  - destruct a as [v|v|v|v|]; simpl in *; try done.
    + destruct (sbom_in ns) as [p|] eqn:Hin; [destruct Hno; eauto|].
      destruct (IH {| directory := Some v; sbom_in := sbom_in ns;
                      sbom_out := sbom_out ns; report_out := report_out ns |} t)
        as (args & Hp & Hdir & Hsb); simpl; [done| |eauto|].
      { rewrite Hin. intros [_ Hs]. apply Hno. split; [by right|done]. }
      exists args. rewrite Hin in *. split_and!; [done|..].
      * rewrite Hdir. split; intros _; [by right | by left].
      * by rewrite Hsb.
    + destruct (directory ns) as [p|] eqn:Hdir; [destruct Hno; eauto|].
      destruct (IH {| directory := directory ns; sbom_in := Some v;
                      sbom_out := sbom_out ns; report_out := report_out ns |} t)
        as (args & Hp & Hd & Hsb); simpl; [done| |eauto|].
      { rewrite Hdir. intros [Hd _]. apply Hno. split; [done|by right]. }
      exists args. rewrite Hdir in *. split_and!; [done|..].
      * by rewrite Hd.
      * rewrite Hsb. split; intros _; [by right | by left].
    + by apply (IH {| directory := directory ns; sbom_in := sbom_in ns;
                      sbom_out := v; report_out := report_out ns |}).
    + by apply (IH {| directory := directory ns; sbom_in := sbom_in ns;
                      sbom_out := sbom_out ns; report_out := v |}).
Qed.

Lemma parse_args_rejects argv :
  (supplies_directory argv = false ∧ supplies_sbom_in argv = false)
  ∨ (supplies_directory argv = true ∧ supplies_sbom_in argv = true) →
  ∃ code t, parse_args argv [] = (SysExit code, t) ∧ no_io t
            ∧ (asks_help argv = false → code = 2).
Proof.
  intros Hcase.
  assert (∃ code t, parse_args argv [] = (SysExit code, t)
                    ∧ (asks_help argv = false → code = 2))
    as (code & t & Hp & Hcode).
  { destruct Hcase as [[Hd Hs] | [Hd Hs]].
    - by apply parse_from_neither.
    - apply parse_from_conflict; [by intros [[? [=]] _]|]. split; by right. }
  exists code, t. split_and!; [done| |done].
  destruct (parse_from_no_io _ _ _ _ _ Hp) as (tail & -> & Htail). done.
Qed.

(** C8: exactly one of [--directory] and [--sbom-in] is required. With no
    argument at all the help is printed and the exit status is 1. When
    neither or both are supplied the run ends while the arguments are
    parsed, before any process, file or network event, with the status 2 of
    an argparse error (0 if a [-h] was reached first). With exactly one of
    them (and no [-h]) the arguments are accepted. *)
Theorem cli_validation (env : environment) (argv : list cli_arg) :
  run_main env [] = (SysExit 1, [PrintHelp])
  ∧ ((supplies_directory argv = false ∧ supplies_sbom_in argv = false)
     ∨ (supplies_directory argv = true ∧ supplies_sbom_in argv = true) →
     ∃ code t,
       run_main env argv = (SysExit code, t)
       ∧ no_io t
       ∧ (argv = [] → code = 1)
       ∧ (argv ≠ [] → asks_help argv = false → code = 2))
  ∧ (asks_help argv = false →
     supplies_directory argv ≠ supplies_sbom_in argv →
     ∃ args,
       parse_args argv [] = (Ret args, [])
       ∧ (is_Some (directory args) ↔ supplies_directory argv = true)
       ∧ (is_Some (sbom_in args) ↔ supplies_sbom_in argv = true)).
Proof.
  split_and!; [done|..].
  - intros Hcase. destruct (decide (argv = [])) as [-> | Hne].
    + exists 1, [PrintHelp]. split_and!; [done| |done..]. by repeat constructor.
    + destruct (parse_args_rejects argv Hcase) as (code & t & Hp & Hio & Hcode).
      exists code, t. unfold run_main. rewrite (main_rejected _ _ _ _ _ Hne Hp).
      by split_and!.
  - intros Hh Hone.
    destruct (parse_from_accepts argv defaults [] Hh) as (args & Hp & Hd & Hs).
    + unfold conflicting. simpl. intros [[[? [=]]|Hd] [[? [=]]|Hs]]. congruence.
    + destruct (supplies_directory argv), (supplies_sbom_in argv); auto; done.
    + exists args. split_and!; [done|..].
      * rewrite Hd. simpl. split; [by intros [[? [=]]|?] | by right].
      * rewrite Hs. simpl. split; [by intros [[? [=]]|?] | by right].
Qed.

(** ** From the SBOM to the report *)




(** A run whose arguments are accepted: what [main] returns is what the
    pipeline returns. *)
Lemma run_main_parsed env argv args :
  parse_args argv [] = (Ret args, []) →
  run_main env argv = pipeline env args [].
Proof.
  intros Hparse. apply main_parsed; [|done]. by intros ->.
Qed.


(** ** The report *)

Lemma report_line_parts eco name v :
  report_line eco name v
    = tag v ++ eco ++ replicate (5 - length eco)%nat space ++ [space] ++ name ++ ending v.
Proof. destruct v as [[]|]; simpl; unfold ljust; by rewrite <- ?app_assoc. Qed.

Lemma join_snoc sep lines line :
  join sep (lines ++ [line]) = mjoin ((λ l, l ++ sep) <$> lines) ++ line.
Proof.
  induction lines as [|x lines IH]; [done|].
  destruct lines as [|y lines].
  - simpl. by rewrite app_nil_r, <- app_assoc.
  - change (join sep ((x :: y :: lines) ++ [line]))
      with (x ++ sep ++ join sep ((y :: lines) ++ [line])).
    rewrite IH. rewrite fmap_cons. simpl. by rewrite <- !app_assoc.
Qed.

Lemma report_line_last eco name v :
  ∃ c, last (report_line eco name v) = Some c ∧ c ≠ newline.
Proof.
  rewrite report_line_parts, !app_assoc.
  destruct v as [[]|];
    [exists 110%N | exists 121%N | exists 109%N];
    (split; [by rewrite last_app | discriminate]).
Qed.

Lemma write_report_event env report_out lines t :
  ∃ o tail, write_report env report_out lines t
            = (o, t ++ WriteText report_out (join [newline] lines) :: tail).
Proof.
  destruct (write_text env t report_out (join [newline] lines)) as [e|[]] eqn:Hw.
  - rewrite (write_report_failed _ _ _ _ _ Hw). eauto.
  - rewrite (write_report_ok _ _ _ _ Hw). eauto.
Qed.

(** C7 (as amended): for every sequence of (ecosystem, name, verdict)
    tuples there is one line per tuple; a line is the tag of the verdict
    ([[OK]] for [False], not found publicly; [[WARN]] for [True], exists
    publicly; [[INFO]] for [None], unknown), the ecosystem left-aligned and
    filled with spaces on the right up to a minimum width of 5 (a longer
    ecosystem is kept whole), a space, the name and the ending of the
    verdict. The lines are written to the report file joined by newlines:
    every line but the last is followed by a newline, and the text does not
    end with a newline. *)
Theorem report_lines_written
    (env : environment) (report_out : list N)
    (tuples : list (list N * list N * option bool)) (t : list event) :
  let lines := (λ tup, report_line tup.1.1 tup.1.2 tup.2) <$> tuples in
  Forall2 (λ tup line,
             line = tag tup.2 ++ tup.1.1
                    ++ replicate (5 - length tup.1.1)%nat space
                    ++ [space] ++ tup.1.2 ++ ending tup.2)
          tuples lines
  ∧ (∃ o tail,
       write_report env report_out lines t
         = (o, t ++ WriteText report_out (join [newline] lines) :: tail))
  ∧ (∀ before line, lines = before ++ [line] →
       join [newline] lines = mjoin ((λ l, l ++ [newline]) <$> before) ++ line)
  ∧ (tuples = [] → join [newline] lines = [])
  ∧ (tuples ≠ [] → ∃ c, last (join [newline] lines) = Some c ∧ c ≠ newline).
Proof.
  intros lines. split_and!.
  - apply Forall2_fmap_r, Forall_Forall2_diag, Forall_forall.
    intros [[eco name] v] _. apply report_line_parts.
  - apply write_report_event.
  - intros before line ->. apply join_snoc.
  - by intros ->.
  - intros Hne. unfold lines. clear lines.
    destruct tuples as [|tup tuples _] using rev_ind; [done|].
    rewrite fmap_app. simpl. rewrite join_snoc.
    destruct (report_line_last tup.1.1 tup.1.2 tup.2) as (c & Hc & Hnl).
    exists c. split; [|done]. by rewrite last_app, Hc.
Qed.

(** C7 as stated fails: the spaces that fill the ecosystem column come
    after the ecosystem, not before it, and an ecosystem longer than 5
    characters takes a wider column. *)
Lemma report_line_not_left_padded :
  report_line (py "npm") (py "left-pad") (Some false)
    = py "[OK]   npm   left-pad not found publicly"
  ∧ left_padded_line (py "npm") (py "left-pad") (Some false)
    = py "[OK]     npm left-pad not found publicly"
  ∧ report_line (py "npm") (py "left-pad") (Some false)
    ≠ left_padded_line (py "npm") (py "left-pad") (Some false)
  ∧ report_line (py "golang") (py "x") None
    = py "[INFO] golang x unknown status or unsupported ecosystem".
Proof. split_and!; [reflexivity | reflexivity | discriminate | reflexivity]. Qed.

(** ** One line per purl *)




(** ** The theorems at concrete inputs *)


Lemma check_public_registry_verdict_witness :
  check_public_registry (Scenario.world Scenario.doc) (py "npm") (py "left-pad") []
    = (Ret (Some false), [RequestsGet (py "https://registry.npmjs.org/left-pad") 10])
  ∧ check_public_registry (Scenario.world Scenario.doc) (py "pypi") (py "requests") []
    = (Ret (Some true), [RequestsGet (py "https://pypi.org/pypi/requests/json") 10])
  ∧ check_public_registry Scenario.offline (py "pypi") (py "requests") []
    = (Ret None,
       [RequestsGet (py "https://pypi.org/pypi/requests/json") 10;
        Stderr (py "Error: Network error when checking pypi/requests: timed out")])
  ∧ check_public_registry (Scenario.world Scenario.doc) (py "golang") (py "x") []
    = (Ret None, []).
Proof.
  split_and!.
  - destruct (proj1 (check_public_registry_verdict
                       (Scenario.world Scenario.doc) (py "npm") (py "left-pad") [])
                (or_intror eq_refl)) as (url & Hurl & Hstatus & _).
    injection Hurl as <-. exact (proj1 (Hstatus 404 eq_refl) eq_refl).
  - destruct (proj1 (check_public_registry_verdict
                       (Scenario.world Scenario.doc) (py "pypi") (py "requests") [])
                (or_introl eq_refl)) as (url & Hurl & Hstatus & _).
    injection Hurl as <-. exact (proj1 (proj2 (Hstatus 200 eq_refl)) eq_refl).
  - destruct (proj1 (check_public_registry_verdict
                       Scenario.offline (py "pypi") (py "requests") [])
                (or_introl eq_refl)) as (url & Hurl & _ & Hraise).
    injection Hurl as <-. exact (Hraise (py "timed out") eq_refl).
  - apply (proj2 (check_public_registry_verdict
                    (Scenario.world Scenario.doc) (py "golang") (py "x") []));
      discriminate.
Defined.

Lemma parse_purls_sorted_unique_witness :
  ∃ purls,
    parse_purls (Scenario.world Scenario.doc) (py "sbom.json") []
      = (Ret purls, [JsonLoad (py "sbom.json")])
    ∧ StronglySorted Str.lt purls
    ∧ NoDup purls
    ∧ Forall (λ p, p ≠ []) purls
    ∧ (length purls
       ≤ length (filter carries_purl (default [] (components Scenario.doc)))
       ≤ length (default [] (components Scenario.doc)))%nat
    ∧ ∀ p, p ∈ purls ↔ ∃ comp, comp ∈ default [] (components Scenario.doc)
                               ∧ purl comp = Some p ∧ p ≠ [].
Proof.
  apply (parse_purls_sorted_unique (Scenario.world Scenario.doc) (py "sbom.json") []
           Scenario.doc).
  reflexivity.
Defined.

Lemma check_purls_skips_unshaped_witness :
  extract_pkg_info (py "npm/left-pad") = Ret (None, None)
  ∧ check_purls (Scenario.world Scenario.doc) [py "npm/left-pad"] [] []
    = (Ret [], [Stderr (py "Skipping invalid PURL: npm/left-pad")])
  ∧ (network_errors_only (Scenario.world Scenario.doc) →
     ∃ lines' t',
       check_purls (Scenario.world Scenario.doc) [py "npm/left-pad"] [] []
         = (Ret ([] ++ lines'), t')
       ∧ length lines' = length (omap checked_identity [])).
Proof.
  apply (check_purls_skips_unshaped (Scenario.world Scenario.doc) (py "npm/left-pad") [] [] []).
  intros (scheme & rest & eco & remainder & Hcut & _)%well_shaped_cuts.
  vm_compute in Hcut. discriminate.
Defined.

Lemma check_purls_skips_empty_witness :
  check_purls (Scenario.world Scenario.doc) [py "pkg:/name"] [] []
    = (Ret [], [Stderr (py "Skipping invalid PURL: pkg:/name")])
  ∧ check_purls (Scenario.world Scenario.doc) [py "pkg:npm/@1.0.0"] [] []
    = (Ret [], [Stderr (py "Skipping invalid PURL: pkg:npm/@1.0.0")]).
Proof.
  split.
  - apply (check_purls_skips_empty (Scenario.world Scenario.doc)
             (py "pkg:/name") [] (py "name") [] [] []); [reflexivity | by left].
  - apply (check_purls_skips_empty (Scenario.world Scenario.doc)
             (py "pkg:npm/@1.0.0") (py "npm") [] [] [] []); [reflexivity | by right].
Defined.



Lemma cli_validation_witness :
  run_main (Scenario.world Scenario.doc)
    [OptDirectory (py "project"); OptSbomIn (py "sbom.json")]
    = (SysExit 2,
       [ArgparseError (py "argument --sbom-in: not allowed with argument --directory")])
  ∧ run_main (Scenario.world Scenario.doc) [OptReportOut (py "report.txt")]
    = (SysExit 2,
       [ArgparseError (py "one of the arguments --directory --sbom-in is required")])
  ∧ ∃ code t,
      run_main (Scenario.world Scenario.doc)
        [OptDirectory (py "project"); OptSbomIn (py "sbom.json")] = (SysExit code, t)
      ∧ no_io t
      ∧ ([OptDirectory (py "project"); OptSbomIn (py "sbom.json")] = [] → code = 1)
      ∧ ([OptDirectory (py "project"); OptSbomIn (py "sbom.json")] ≠ [] →
         asks_help [OptDirectory (py "project"); OptSbomIn (py "sbom.json")] = false →
         code = 2).
Proof.
  split_and!; [reflexivity | reflexivity |].
  apply (proj1 (proj2 (cli_validation (Scenario.world Scenario.doc)
                         [OptDirectory (py "project"); OptSbomIn (py "sbom.json")]))).
  right. by split.
Defined.

(** * Further properties *)

(** ** The parts of a parsed purl *)

(** X1: when the parser returns an ecosystem and a name, the purl is
    [scheme:ecosystem/name] followed by nothing or by [@...]; the scheme has
    no [:], the ecosystem no [/] and the name no [@]. *)
Theorem extract_pkg_info_parts (purl eco name : list N) :
  extract_pkg_info purl = Ret (Some eco, Some name) →
  ∃ scheme tail,
    purl = scheme ++ colon :: eco ++ slash :: name ++ tail
    ∧ (colon ∉ scheme) ∧ (slash ∉ eco) ∧ (at_sign ∉ name)
    ∧ (tail = [] ∨ ∃ version, tail = at_sign :: version).
Proof.
  rewrite extract_pkg_info_cut.
  destruct (cut colon purl) as [[scheme rest]|] eqn:Hc; [|done].
  destruct (cut slash rest) as [[eco' remainder]|] eqn:Hs; [|done].
  apply cut_Some_inv in Hc as [-> Hscheme]. apply cut_Some_inv in Hs as [-> Heco].
  destruct (cut at_sign remainder) as [[name' version]|] eqn:Ha; intros [= <- <-].
  - apply cut_Some_inv in Ha as [-> Hname].
    exists scheme, (at_sign :: version). split_and!; eauto.
  - apply cut_None_inv in Ha.
    exists scheme, []. rewrite app_nil_r. split_and!; eauto.
Qed.

Lemma extract_pkg_info_parts_witness :
  ∃ scheme tail,
    py "pkg:npm/left-pad@1.0.0"
      = scheme ++ colon :: py "npm" ++ slash :: py "left-pad" ++ tail
    ∧ (colon ∉ scheme) ∧ (slash ∉ py "npm") ∧ (at_sign ∉ py "left-pad")
    ∧ (tail = [] ∨ ∃ version, tail = at_sign :: version).
Proof.
  apply (extract_pkg_info_parts (py "pkg:npm/left-pad@1.0.0") (py "npm") (py "left-pad")).
  reflexivity.
Defined.

(** ** The purls of a document *)

Lemma purl_set_same comps1 comps2 :
  (∀ p, p ≠ [] →
     (∃ comp, comp ∈ comps1 ∧ purl comp = Some p)
     ↔ (∃ comp, comp ∈ comps2 ∧ purl comp = Some p)) →
  purl_set comps1 = purl_set comps2.
Proof.
  intros Hsame. apply set_eq. intros p. rewrite !elem_of_purl_set.
  split; intros (comp & Hin & Hp & Hne).
  - destruct (proj1 (Hsame p Hne)) as (comp' & ? & ?); eauto.
  - destruct (proj2 (Hsame p Hne)) as (comp' & ? & ?); eauto.
Qed.

(** X2: the result of [parse_purls] depends only on which non-empty purls
    occur in the document: two documents with the same non-empty purls, in
    any order and with any repetition, give the same list. *)
Theorem parse_purls_order_independent
    (env1 env2 : environment) (path1 path2 : list N) (t1 t2 : list event)
    (data1 data2 : sbom) :
  json_load env1 t1 path1 = inr data1 →
  json_load env2 t2 path2 = inr data2 →
  (∀ p, p ≠ [] →
     (∃ comp, comp ∈ default [] (components data1) ∧ purl comp = Some p)
     ↔ (∃ comp, comp ∈ default [] (components data2) ∧ purl comp = Some p)) →
  (parse_purls env1 path1 t1).1 = (parse_purls env2 path2 t2).1.
Proof.
  intros H1 H2 Hsame.
  rewrite (parse_purls_loaded _ _ _ _ H1), (parse_purls_loaded _ _ _ _ H2). simpl.
  by rewrite (purl_set_same _ _ Hsame).
Qed.

Lemma parse_purls_order_independent_witness :
  (parse_purls (Scenario.world Scenario.doc) (py "a.json") []).1
  = (parse_purls (Scenario.world doc_shuffled) (py "b.json") []).1.
Proof.
  apply (parse_purls_order_independent
           (Scenario.world Scenario.doc) (Scenario.world doc_shuffled)
           (py "a.json") (py "b.json") [] [] Scenario.doc doc_shuffled);
    [reflexivity | reflexivity |].
  intros p Hne. simpl.
  split; intros (comp & Hin & Hp);
    repeat (apply elem_of_cons in Hin as [-> | Hin]);
    try (by apply elem_of_nil in Hin);
    simpl in Hp; try discriminate; injection Hp as <-; try (by destruct Hne);
    (eexists (Component (Some _)); split; [|reflexivity]; repeat constructor).
Defined.

(** ** What a stage can append to the trace *)

Lemma bind_run {A B} (m : M A) (f : A → M B) t :
  (m ≫= f) t =
    match m t with
    | (Ret a, t') => f a t'
    | (Raise e, t') => (Raise e, t')
    | (SysExit c, t') => (SysExit c, t')
    end.
Proof. done. Qed.

Lemma emits_ret {A} P (a : A) : emits_only P (mret a).
Proof. intros t. exists (Ret a), []. by rewrite app_nil_r. Qed.

Lemma emits_lift {A} P (o : outcome A) : emits_only P (lift o).
Proof. intros t. exists o, []. by rewrite app_nil_r. Qed.

Lemma emits_exit {A} P code : emits_only P (sys_exit (A:=A) code).
Proof. intros t. exists (SysExit code), []. by rewrite app_nil_r. Qed.

Lemma emits_emit (P : event → Prop) e : P e → emits_only P (emit e).
Proof. intros He t. exists (Ret ()), [e]. split; [done | by constructor]. Qed.

Lemma emits_call {A} (P : event → Prop) e (answer : list event → exn + A) :
  P e → emits_only P (call e answer).
Proof.
  intros He t. unfold call.
  destruct (answer t) as [x|a]; eexists _, [e]; (split; [done | by constructor]).
Qed.

Lemma emits_bind {A B} P (m : M A) (f : A → M B) :
  emits_only P m → (∀ a, emits_only P (f a)) → emits_only P (m ≫= f).
Proof.
  intros Hm Hf t. rewrite bind_run.
  destruct (Hm t) as (o & tail & -> & Htail). destruct o as [a|e|c].
  - destruct (Hf a (t ++ tail)) as (o' & tail' & -> & Htail').
    exists o', (tail ++ tail'). rewrite app_assoc. split; [done|].
    by apply Forall_app.
  - by exists (Raise e), tail.
  - by exists (SysExit c), tail.
Qed.

Lemma emits_try {A} P (body : M A) (handler : exn → option (M A)) :
  emits_only P body → (∀ e h, handler e = Some h → emits_only P h) →
  emits_only P (try_except_M body handler).
Proof.
  intros Hbody Hh t. unfold try_except_M.
  destruct (Hbody t) as (o & tail & -> & Htail). destruct o as [a|e|c].
  - by exists (Ret a), tail.
  - destruct (handler e) as [h|] eqn:He.
    + destruct (Hh e h He (t ++ tail)) as (o' & tail' & -> & Htail').
      exists o', (tail ++ tail'). rewrite app_assoc. split; [done|].
      by apply Forall_app.
    + by exists (Raise e), tail.
  - by exists (SysExit c), tail.
Qed.

Lemma emits_weaken {A} (P Q : event → Prop) (m : M A) :
  (∀ e, P e → Q e) → emits_only P m → emits_only Q m.
Proof.
  intros HPQ Hm t. destruct (Hm t) as (o & tail & -> & Htail).
  exists o, tail. split; [done|]. by eapply Forall_impl.
Qed.

Lemma check_trivy_emits env : emits_only resolve_event (check_trivy env).
Proof.
  apply emits_try; [by apply emits_call|].
  intros e h He. destruct e; simplify_eq;
    (apply emits_bind; [by apply emits_emit | intros _; apply emits_exit]).
Qed.

Lemma generate_sbom_emits env target_dir sbom_path :
  emits_only resolve_event (generate_sbom env target_dir sbom_path).
Proof.
  apply emits_bind; [by apply emits_emit|]. intros _.
  apply emits_try; [by apply emits_call|].
  intros e h He. destruct e; simplify_eq.
  apply emits_bind; [by apply emits_emit | intros _; apply emits_exit].
Qed.

Lemma check_public_registry_emits env eco name :
  emits_only lookup_event (check_public_registry env eco name).
Proof.
  apply emits_try.
  - destruct (registry_url eco name) as [url|]; [|apply emits_ret].
    apply emits_bind; [by apply emits_call|]. intros status.
    repeat case_decide; try apply emits_ret.
    apply emits_bind; [by apply emits_emit | intros _; apply emits_ret].
  - intros e h He. destruct e; simplify_eq.
    apply emits_bind; [by apply emits_emit | intros _; apply emits_ret].
Qed.

Lemma check_purls_emits env purls :
  ∀ lines, emits_only lookup_event (check_purls env purls lines).
Proof.
  induction purls as [|purl purls IH]; intros lines; [apply emits_ret|].
  simpl. apply emits_bind; [apply emits_lift|]. intros r.
  destruct (valid_pair r) as [[eco name]|].
  - apply emits_bind; [apply check_public_registry_emits|]. intros v. apply IH.
  - apply emits_bind; [by apply emits_emit|]. intros _. apply IH.
Qed.

(** [parse_purls] opens the file once and may print an error. *)
Lemma parse_purls_trace env sbom_path t :
  ∃ o msgs, parse_purls env sbom_path t = (o, t ++ JsonLoad sbom_path :: msgs)
            ∧ Forall stderr_event msgs.
Proof.
  unfold parse_purls. unfold_M.
  destruct (json_load env t sbom_path) as [e|data].
  - destruct e; eexists _, _; (split; [by rewrite <- ?app_assoc | by repeat constructor]).
  - eexists _, []. split; [done | constructor].
Qed.

(** [write_report] writes once and prints one message. *)
Lemma write_report_trace env report_out lines t :
  ∃ o msg, write_report env report_out lines t
           = (o, t ++ [WriteText report_out (join [newline] lines); msg])
           ∧ terminal_event msg.
Proof.
  destruct (write_text env t report_out (join [newline] lines)) as [e|[]] eqn:Hw.
  - rewrite (write_report_failed _ _ _ _ _ Hw). by eexists _, _.
  - rewrite (write_report_ok _ _ _ _ Hw). by eexists _, _.
Qed.

(** ** The requests of a run *)

Lemma requested_app t1 t2 : requested (t1 ++ t2) = requested t1 ++ requested t2.
Proof. apply omap_app. Qed.

(** One lookup: it never exits, and it requests the registry URL once when
    there is one, whatever the answer. *)
Lemma check_public_registry_requests env eco name t :
  ∃ o tail,
    check_public_registry env eco name t = (o, t ++ tail)
    ∧ (∀ code, o ≠ SysExit code)
    ∧ requested tail = option_list (registry_url eco name).
Proof.
  destruct (registry_url eco name) as [url|] eqn:Hurl.
  - destruct (requests_get env t url) as [e|status] eqn:Hget.
    + rewrite (check_public_registry_raise _ _ _ _ _ _ Hurl Hget).
      destruct e; eexists _, _; (split_and!; [by rewrite <- ?app_assoc | done | done]).
    + rewrite (check_public_registry_status _ _ _ _ _ _ Hurl Hget).
      repeat case_decide; eexists _, _;
        (split_and!; [by rewrite <- ?app_assoc | done | done]).
  - rewrite (check_public_registry_unsupported _ _ _ _ Hurl).
    exists (Ret None), []. by rewrite app_nil_r.
Qed.

Lemma lookup_url_checked purl r eco name :
  extract_pkg_info purl = Ret r → valid_pair r = Some (eco, name) →
  lookup_url purl = registry_url eco name.
Proof. intros Hx Hv. unfold lookup_url, checked_identity. by rewrite Hx, Hv. Qed.

Lemma lookup_url_skipped purl r :
  extract_pkg_info purl = Ret r → valid_pair r = None → lookup_url purl = None.
Proof. intros Hx Hv. unfold lookup_url, checked_identity. by rewrite Hx, Hv. Qed.

Lemma omap_cons_option_list {A B} (f : A → option B) x l :
  omap f (x :: l) = option_list (f x) ++ omap f l.
Proof. simpl. by destruct (f x). Qed.

(** X3: the loop makes no request of its own and never repeats one. In
    any world the URLs it requests are, in the order of the purls, the
    registry URLs of the purls it checks, up to the point where it stops;
    purls it skips and ecosystems without a registry cause no request. The
    loop never exits the process; when it returns, every such URL was
    requested exactly once; and it does return when requests raise nothing
    but [RequestException]s. *)
Theorem check_purls_requests
    (env : environment) (purls lines : list (list N)) (t : list event) :
  ∃ o tail,
    check_purls env purls lines t = (o, t ++ tail)
    ∧ requested tail `prefix_of` omap lookup_url purls
    ∧ (∀ code, o ≠ SysExit code)
    ∧ (∀ lines', o = Ret lines' → requested tail = omap lookup_url purls)
    ∧ (network_errors_only env → ∃ lines', o = Ret lines').
Proof.
  revert lines t. induction purls as [|purl purls IH]; intros lines t.
  - exists (Ret lines), []. rewrite app_nil_r. split_and!; eauto.
  - destruct (extract_pkg_info_returns purl) as [r Hx].
    rewrite omap_cons_option_list.
    destruct (valid_pair r) as [[eco name]|] eqn:Hv.
    + rewrite (lookup_url_checked _ _ _ _ Hx Hv).
      destruct (check_public_registry_requests env eco name t)
        as (o1 & tail1 & Hc & Hexit & Hreq).
      destruct o1 as [v|e|c]; [| |by destruct (Hexit c)].
      * rewrite (check_purls_check _ _ _ _ _ _ _ _ _ _ Hx Hv Hc).
        destruct (IH (lines ++ [report_line eco name v]) (t ++ tail1))
          as (o & tail & -> & Hpre & Hne & Hret & Htot).
        exists o, (tail1 ++ tail). rewrite app_assoc, requested_app, Hreq.
        split_and!; [done| |done| |done].
        -- by apply prefix_app.
        -- intros lines' Ho. by rewrite (Hret lines' Ho).
      * exists (Raise e), tail1. split_and!; [| |done|done|].
        -- simpl. unfold_M. by rewrite Hx, Hv, Hc.
        -- rewrite Hreq. apply prefix_app_r. done.
        -- intros Hnet.
           destruct (check_public_registry_returns env eco name t Hnet) as (? & ? & ?).
           congruence.
    + rewrite (lookup_url_skipped _ _ Hx Hv).
      rewrite (check_purls_skip _ _ _ _ _ _ Hx Hv).
      destruct (IH lines (t ++ [Stderr (py "Skipping invalid PURL: " ++ purl)]))
        as (o & tail & -> & Hpre & Hne & Hret & Htot).
      exists o, (Stderr (py "Skipping invalid PURL: " ++ purl) :: tail).
      split_and!; [by rewrite <- app_assoc|done..].
Qed.

(** ** The stages of a run in any world *)

(** The first stage either hands the SBOM path over after process events
    only (none when an SBOM was supplied), or ends the run. *)
Lemma pipeline_stages env args t :
  (∃ pre,
     Forall resolve_event pre ∧ (is_Some (sbom_in args) → pre = [])
     ∧ pipeline env args t
       = scan_and_report env (sbom_source args) (report_out args) (t ++ pre))
  ∨ (∃ o pre,
       Forall resolve_event pre ∧ sbom_in args = None
       ∧ pipeline env args t = (o, t ++ pre) ∧ ∀ u, o ≠ Ret u).
Proof.
  unfold pipeline, sbom_source. destruct (sbom_in args) as [p|] eqn:Hin.
  - left. exists []. rewrite app_nil_r. by split_and!.
  - rewrite bind_run, bind_run.
    destruct (check_trivy_emits env t) as (o1 & tail1 & -> & H1).
    destruct o1 as [[]|e|c];
      [|right; eexists _, tail1; by split_and! ..].
    rewrite bind_run.
    destruct (generate_sbom_emits env (path_str (directory args)) (sbom_out args)
                (t ++ tail1)) as (o2 & tail2 & -> & H2).
    destruct o2 as [[]|e|c].
    + left. exists (tail1 ++ tail2). rewrite app_assoc.
      split_and!; [by apply Forall_app | by intros [? [=]] | done].
    + right. eexists _, (tail1 ++ tail2). rewrite app_assoc.
      split_and!; [by apply Forall_app | done..].
    + right. eexists _, (tail1 ++ tail2). rewrite app_assoc.
      split_and!; [by apply Forall_app | done..].
Qed.

(** From the load on: one load, then the lookups, then at most one write. *)
Lemma scan_and_report_stages env sbom_path report_out t :
  ∃ o msgs lookups write,
    scan_and_report env sbom_path report_out t
      = (o, t ++ (JsonLoad sbom_path :: msgs) ++ lookups ++ write)
    ∧ Forall stderr_event msgs
    ∧ Forall lookup_event lookups
    ∧ (write = []
       ∨ ∃ lines msg, write = [WriteText report_out (join [newline] lines); msg]
                      ∧ terminal_event msg).
Proof.
  unfold scan_and_report. rewrite bind_run.
  destruct (parse_purls_trace env sbom_path t) as (o1 & msgs & -> & Hmsgs).
  destruct o1 as [purls|e|c];
    [|eexists _, msgs, [], []; rewrite !app_nil_r; split_and!; by eauto ..].
  assert (emits_only lookup_event
            (match purls with
             | [] => eprint (py "No PURLs found in SBOM.")
             | _ :: _ => mret ()
             end)) as Hwarn
    by (destruct purls; [by apply emits_emit | apply emits_ret]).
  rewrite bind_run.
  destruct (Hwarn (t ++ JsonLoad sbom_path :: msgs)) as (o2 & tail2 & -> & H2).
  destruct o2 as [[]|e|c];
    [|eexists _, msgs, tail2, []; rewrite !app_nil_r, <- ?app_assoc;
      split_and!; by eauto ..].
  rewrite bind_run.
  destruct (check_purls_emits env purls [] ((t ++ JsonLoad sbom_path :: msgs) ++ tail2))
    as (o3 & tail3 & -> & H3).
  destruct o3 as [lines|e|c];
    [|eexists _, msgs, (tail2 ++ tail3), []; rewrite !app_nil_r, <- ?app_assoc;
      split_and!; [done | done | by apply Forall_app | by left] ..].
  destruct (write_report_trace env report_out lines
              (((t ++ JsonLoad sbom_path :: msgs) ++ tail2) ++ tail3))
    as (o4 & msg & -> & Hmsg).
  eexists o4, msgs, (tail2 ++ tail3), _. rewrite <- !app_assoc.
  split_and!; [done | done | by apply Forall_app | right; eauto].
Qed.

(** X4: a run with accepted arguments is one pass. Its trace is made of
    four consecutive parts: the events of Trivy (none at all when
    [--sbom-in] is given), at most one load, of the chosen SBOM path, with
    its error message, then the network requests and per-purl messages,
    then at most one write, to the report path, with its message. Nothing
    is requested before the SBOM is loaded and nothing happens after the
    write. *)
Theorem run_is_one_pass (env : environment) (argv : list cli_arg) (args : namespace) :
  parse_args argv [] = (Ret args, []) →
  ∃ resolve load lookups write,
    (run_main env argv).2 = resolve ++ load ++ lookups ++ write
    ∧ Forall resolve_event resolve
    ∧ (is_Some (sbom_in args) → resolve = [])
    ∧ (load = []
       ∨ ∃ msgs, load = JsonLoad (sbom_source args) :: msgs ∧ Forall stderr_event msgs)
    ∧ Forall lookup_event lookups
    ∧ (write = []
       ∨ ∃ lines msg, write = [WriteText (report_out args) (join [newline] lines); msg]
                      ∧ terminal_event msg).
Proof.
  intros Hparse. rewrite (run_main_parsed env _ _ Hparse).
  destruct (pipeline_stages env args [])
    as [(pre & Hpre & Hnone & ->) | (o & pre & Hpre & Hin & -> & _)].
  - destruct (scan_and_report_stages env (sbom_source args) (report_out args) ([] ++ pre))
      as (o & msgs & lookups & write & -> & Hmsgs & Hlook & Hwrite).
    exists pre, (JsonLoad (sbom_source args) :: msgs), lookups, write. simpl.
    split_and!; eauto.
  - exists pre, [], [], []. simpl. rewrite app_nil_r.
    split_and!; eauto. rewrite Hin. by intros [? [=]].
Qed.

Lemma run_is_one_pass_witness :
  ∃ resolve load lookups write,
    (run_main Scenario.offline [OptDirectory (py "project")]).2
      = resolve ++ load ++ lookups ++ write
    ∧ Forall resolve_event resolve
    ∧ (is_Some (sbom_in directory_args) → resolve = [])
    ∧ (load = []
       ∨ ∃ msgs, load = JsonLoad (sbom_source directory_args) :: msgs
                 ∧ Forall stderr_event msgs)
    ∧ Forall lookup_event lookups
    ∧ (write = []
       ∨ ∃ lines msg,
           write = [WriteText (report_out directory_args) (join [newline] lines); msg]
           ∧ terminal_event msg).
Proof.
  apply (run_is_one_pass Scenario.offline [OptDirectory (py "project")] directory_args).
  reflexivity.
Defined.

(** ** Runs that end early *)

(** X5: without [--sbom-in], when [trivy --version] cannot be started or
    ends with a non-zero status, the run prints one error and exits with 1
    right after that single process call: no scan, no file, no request, no
    report. *)
Theorem run_without_trivy
    (env : environment) (argv : list cli_arg) (args : namespace) (e : exn) :
  parse_args argv [] = (Ret args, []) →
  sbom_in args = None →
  subprocess_run env [] [py "trivy"; py "--version"] = inl e →
  (∃ msg, e = FileNotFoundError msg ∨ ∃ rc, e = CalledProcessError rc msg) →
  run_main env argv
    = (SysExit 1,
       [SubprocessRun [py "trivy"; py "--version"];
        Stderr (py "Error: Trivy is not installed or not on your PATH.")]).
Proof.
  intros Hparse Hin Hrun He. rewrite (run_main_parsed env _ _ Hparse).
  unfold pipeline. rewrite Hin.
  erewrite bind_exit; [reflexivity|]. erewrite bind_exit; [reflexivity|].
  unfold check_trivy, run. unfold_M. rewrite Hrun.
  by destruct He as [msg [-> | [rc ->]]].
Qed.

Lemma run_without_trivy_witness :
  run_main no_trivy [OptDirectory (py "project")]
    = (SysExit 1,
       [SubprocessRun [py "trivy"; py "--version"];
        Stderr (py "Error: Trivy is not installed or not on your PATH.")]).
Proof.
  apply (run_without_trivy no_trivy [OptDirectory (py "project")] directory_args
           (FileNotFoundError (py "[Errno 2] No such file or directory: 'trivy'")));
    [reflexivity | reflexivity | reflexivity | eexists; by left].
Defined.



Lemma pipeline_resolved_trace env args t :
  sbom_resolved env args →
  ∃ pre,
    Forall resolve_event pre
    ∧ pipeline env args t
      = scan_and_report env (sbom_source args) (report_out args) (t ++ pre).
Proof.
  intros Hres. unfold pipeline, sbom_source.
  destruct (sbom_in args) as [p|] eqn:Hin.
  - exists []. by rewrite app_nil_r.
  - destruct Hres as [[x Hx] | Hrun]; [congruence|].
    eexists. split; [|erewrite bind_ret; [reflexivity|]].
    2: { erewrite bind_ret; [|apply check_trivy_ok, Hrun].
         erewrite bind_ret; [|apply generate_sbom_ok, Hrun].
         rewrite <- app_assoc. reflexivity. }
    by repeat constructor.
Qed.

Lemma written_app t1 t2 : written (t1 ++ t2) = written t1 ++ written t2.
Proof. apply omap_app. Qed.

Lemma written_none (P : event → Prop) t :
  (∀ path content, ¬ P (WriteText path content)) → Forall P t → written t = [].
Proof.
  intros HP. induction 1 as [|e t He _ IH]; [done|].
  destruct e; try done. by destruct (HP path content).
Qed.




(** X8: [parse_purls] handles a missing file and malformed JSON only. Any
    other exception of the load (a permission error, say) is not caught:
    the run ends with that exception right after the load, without the
    "Failed to parse" message and without a report. *)
Theorem run_load_uncaught
    (env : environment) (argv : list cli_arg) (args : namespace) (e : exn) :
  parse_args argv [] = (Ret args, []) →
  sbom_resolved env args →
  (∀ t, json_load env t (sbom_source args) = inl e) →
  not_parse_error e →
  ∃ pre,
    run_main env argv = (Raise e, pre ++ [JsonLoad (sbom_source args)])
    ∧ Forall resolve_event pre.
Proof.
  intros Hparse Hres Hload He. rewrite (run_main_parsed env _ _ Hparse).
  destruct (pipeline_resolved_trace env args [] Hres) as (pre & Hpre & ->).
  exists pre. split; [|done]. unfold scan_and_report.
  erewrite bind_raise; [reflexivity|].
  unfold parse_purls. unfold_M. rewrite Hload. by destruct e.
Qed.

Lemma run_load_uncaught_witness :
  ∃ pre,
    run_main unreadable_sbom [OptSbomIn (py "sbom.json")]
      = (Raise (OtherException (py "[Errno 13] Permission denied: 'sbom.json'")),
         pre ++ [JsonLoad (sbom_source sbom_in_args)])
    ∧ Forall resolve_event pre.
Proof.
  apply (run_load_uncaught unreadable_sbom [OptSbomIn (py "sbom.json")] sbom_in_args);
    [reflexivity | by left | reflexivity | exact I].
Defined.

(** Once some purl's registry URL answers with an exception that is not
    a [RequestException], the loop ends with an exception of that kind
    raised by a request: the one of that URL, or an earlier one. The
    requests before it may answer anything. *)
Lemma check_purls_client_error env url e :
  (∀ t, requests_get env t url = inl e) →
  not_request_exception e →
  ∀ purls lines t,
    url ∈ omap lookup_url purls →
    ∃ e' t' url',
      (check_purls env purls lines t).1 = Raise e'
      ∧ not_request_exception e'
      ∧ requests_get env t' url' = inl e'.
Proof.
  intros Hget He. induction purls as [|purl purls IH]; intros lines t Hurls.
  { by apply elem_of_nil in Hurls. }
  destruct (extract_pkg_info_returns purl) as [r Hx].
  rewrite omap_cons_option_list in Hurls.
  destruct (valid_pair r) as [[eco name]|] eqn:Hv.
  - rewrite (lookup_url_checked _ _ _ _ Hx Hv) in Hurls.
    destruct (registry_url eco name) as [u|] eqn:Hurl.
    + destruct (requests_get env t u) as [x|status] eqn:Hu.
      * assert (Hc := check_public_registry_raise env eco name u x t Hurl Hu).
        destruct (decide (u = url)) as [-> | Hne].
        -- rewrite Hget in Hu. injection Hu as <-.
           exists e, t, url. split_and!; [|done..].
           simpl. unfold_M. rewrite Hx, Hv.
           fold (check_public_registry env eco name t). rewrite Hc. by destruct e.
        -- apply elem_of_cons in Hurls as [-> | Hurls]; [done|].
           destruct x as [m|m|m|m|rc m|m|m];
             try (eexists _, t, u;
                  split_and!;
                    [simpl; unfold_M; rewrite Hx, Hv;
                     fold (check_public_registry env eco name t); by rewrite Hc
                    | done | done]).
           rewrite (check_purls_check _ _ _ _ _ _ _ _ _ _ Hx Hv Hc). by apply IH.
      * apply elem_of_cons in Hurls as [-> | Hurls]; [by rewrite Hget in Hu|].
        assert (Hc := check_public_registry_status env eco name u status t Hurl Hu).
        repeat case_decide;
          rewrite (check_purls_check _ _ _ _ _ _ _ _ _ _ Hx Hv Hc); by apply IH.
    + rewrite (check_purls_check _ _ _ _ _ _ _ _ _ _ Hx Hv
                 (check_public_registry_unsupported _ _ _ _ Hurl)).
      by apply IH.
  - rewrite (lookup_url_skipped _ _ Hx Hv) in Hurls.
    rewrite (check_purls_skip _ _ _ _ _ _ Hx Hv). by apply IH.
Qed.

(** X9: only [RequestException]s are downgraded to an unknown verdict.
    When the registry URL of some purl of the SBOM answers with any other
    exception, the run ends with an exception of that kind raised by a
    request (that one, unless an earlier request raised one), with exit
    status 1, and the report is not written, whatever the lookups before
    it answered: the verdicts already obtained are lost. When no other
    request raises such an exception, the run ends with that very
    exception. *)
Theorem run_aborts_on_client_error
    (env : environment) (argv : list cli_arg) (args : namespace) (data : sbom)
    (url : list N) (e : exn) :
  parse_args argv [] = (Ret args, []) →
  sbom_resolved env args →
  (∀ t, json_load env t (sbom_source args) = inr data) →
  url ∈ omap lookup_url (sorted (purl_set (default [] (components data)))) →
  (∀ t, requests_get env t url = inl e) →
  not_request_exception e →
  ∃ e',
    (run_main env argv).1 = Raise e'
    ∧ not_request_exception e'
    ∧ (∃ t' url', requests_get env t' url' = inl e')
    ∧ ((∀ t' url' x, requests_get env t' url' = inl x →
                     not_request_exception x → x = e) → e' = e)
    ∧ written (run_main env argv).2 = []
    ∧ exit_status (run_main env argv).1 = 1.
Proof.
  intros Hparse Hres Hload Hurls Hget He. rewrite (run_main_parsed env _ _ Hparse).
  destruct (pipeline_resolved_trace env args [] Hres) as (pre & Hpre & ->).
  unfold scan_and_report.
  erewrite bind_ret; [|by apply parse_purls_loaded].
  generalize dependent (sorted (purl_set (default [] (components data)))).
  intros purls Hurls.
  assert (∃ purl purls', purls = purl :: purls') as (purl & purls' & Hpurls).
  { destruct purls; [by apply elem_of_nil in Hurls | eauto]. }
  erewrite bind_ret; [|rewrite Hpurls; reflexivity].
  rewrite bind_run.
  destruct (check_purls_client_error env url e Hget He purls []
              (([] ++ pre) ++ [JsonLoad (sbom_source args)]) Hurls)
    as (e' & t' & url' & Hloop & He' & Hraised).
  destruct (check_purls_emits env purls [] (([] ++ pre) ++ [JsonLoad (sbom_source args)]))
    as (o & tail & Hrun & Htail).
  rewrite Hrun in Hloop |- *. simpl in Hloop. subst o. simpl.
  exists e'. split_and!; [done | done | eauto | eauto | | done].
  rewrite !written_app.
  rewrite (written_none resolve_event pre) by (done || by intros ?? []).
  by rewrite (written_none lookup_event tail) by (done || by intros ?? []).
Qed.

Lemma run_aborts_on_client_error_witness :
  run_main flaky_client [OptSbomIn (py "sbom.json")]
    = (Raise (OtherException (py "unexpected failure")),
       [JsonLoad (py "sbom.json");
        RequestsGet (py "https://registry.npmjs.org/left-pad") 10;
        RequestsGet (py "https://pypi.org/pypi/requests/json") 10])
  ∧ ∃ e',
      (run_main flaky_client [OptSbomIn (py "sbom.json")]).1 = Raise e'
      ∧ not_request_exception e'
      ∧ (∃ t' url', requests_get flaky_client t' url' = inl e')
      ∧ ((∀ t' url' x, requests_get flaky_client t' url' = inl x →
                       not_request_exception x →
                       x = OtherException (py "unexpected failure")) →
         e' = OtherException (py "unexpected failure"))
      ∧ written (run_main flaky_client [OptSbomIn (py "sbom.json")]).2 = []
      ∧ exit_status (run_main flaky_client [OptSbomIn (py "sbom.json")]).1 = 1.
Proof.
  split; [by vm_compute|].
  apply (run_aborts_on_client_error flaky_client [OptSbomIn (py "sbom.json")]
           sbom_in_args Scenario.doc (py "https://pypi.org/pypi/requests/json")
           (OtherException (py "unexpected failure")));
    [reflexivity | by left | reflexivity | | reflexivity | exact I].
  apply (bool_decide_unpack _). by vm_compute.
Defined.

(** ** Runs that return *)

Lemma bind_ret_inv {A B} (m : M A) (f : A → M B) t b t' :
  (m ≫= f) t = (Ret b, t') → ∃ a t1, m t = (Ret a, t1) ∧ f a t1 = (Ret b, t').
Proof.
  rewrite bind_run. destruct (m t) as [[a|e|c] t1]; [eauto|done..].
Qed.

Lemma write_report_ret_inv env report_out lines t u t' :
  write_report env report_out lines t = (Ret u, t') →
  write_text env t report_out (join [newline] lines) = inr ()
  ∧ t' = t ++ [WriteText report_out (join [newline] lines);
               Stdout (py "Dependency confusion report written to " ++ report_out)].
Proof.
  destruct (write_text env t report_out (join [newline] lines)) as [e|[]] eqn:Hw.
  - by rewrite (write_report_failed _ _ _ _ _ Hw).
  - rewrite (write_report_ok _ _ _ _ Hw). by intros [= <- <-].
Qed.

Lemma parse_from_ret_trace argv : ∀ ns t args t',
  parse_from argv ns t = (Ret args, t') → t' = t.
Proof.
  induction argv as [|a argv IH]; intros ns t args t'; simpl.
  - destruct (directory ns), (sbom_in ns); rewrite ?parser_error_eq;
      unfold mret, M_ret; by intros [= <- <-].
  - destruct a; try apply IH.
    + destruct (sbom_in ns); [by rewrite parser_error_eq | apply IH].
    + destruct (directory ns); [by rewrite parser_error_eq | apply IH].
    + done.
Qed.

(** X10: [main] returns (exit status 0 without [-h]) only after the
    report was written: the arguments were accepted, the write to the
    report path succeeded, and the write and its confirmation on stdout
    are the last two events of the run. *)
Theorem run_returns_after_write
    (env : environment) (argv : list cli_arg) (u : unit) (trace : list event) :
  run_main env argv = (Ret u, trace) →
  ∃ args t lines,
    parse_args argv [] = (Ret args, [])
    ∧ write_text env t (report_out args) (join [newline] lines) = inr ()
    ∧ trace = t ++ [WriteText (report_out args) (join [newline] lines);
                    Stdout (py "Dependency confusion report written to "
                            ++ report_out args)].
Proof.
  unfold run_main. destruct argv as [|a argv]; [done|].
  unfold main. intros (args & t0 & Hparse & Hrest)%bind_ret_inv.
  assert (t0 = []) as -> by by eapply parse_from_ret_trace.
  apply bind_ret_inv in Hrest as (sbom_path & t1 & _ & Hrest).
  apply bind_ret_inv in Hrest as (purls & t2 & _ & Hrest).
  apply bind_ret_inv in Hrest as ([] & t3 & _ & Hrest).
  apply bind_ret_inv in Hrest as (lines & t4 & _ & Hrest).
  apply write_report_ret_inv in Hrest as [Hw ->]. by exists args, t4, lines.
Qed.

Lemma run_returns_after_write_witness :
  ∃ args t lines,
    parse_args [OptSbomIn (py "sbom.json")] [] = (Ret args, [])
    ∧ write_text (Scenario.world Scenario.doc) t (report_out args)
        (join [newline] lines) = inr ()
    ∧ [JsonLoad (py "sbom.json");
       RequestsGet (py "https://registry.npmjs.org/left-pad") 10;
       RequestsGet (py "https://pypi.org/pypi/requests/json") 10;
       WriteText (py "dependency_confusion_report.txt")
         (py "[OK]   npm   left-pad not found publicly" ++ [newline]
          ++ py "[WARN] pypi  requests EXISTS publicly - potential collision");
       Stdout (py "Dependency confusion report written to dependency_confusion_report.txt")]
      = t ++ [WriteText (report_out args) (join [newline] lines);
              Stdout (py "Dependency confusion report written to " ++ report_out args)].
Proof.
  apply (run_returns_after_write (Scenario.world Scenario.doc)
           [OptSbomIn (py "sbom.json")] ()).
  by vm_compute.
Defined.

(** ** Accepted arguments *)

Lemma parse_from_values argv : ∀ ns t args t',
  parse_from argv ns t = (Ret args, t') →
  ¬ (is_Some (directory ns) ∧ is_Some (sbom_in ns)) →
  report_out args = last_report_out argv (report_out ns)
  ∧ sbom_out args = last_sbom_out argv (sbom_out ns)
  ∧ ((is_Some (directory args) ∧ sbom_in args = None)
     ∨ (directory args = None ∧ is_Some (sbom_in args))).
Proof.
  induction argv as [|a argv IH]; intros ns t args t'; simpl.
  - destruct (directory ns) as [d|] eqn:Hd, (sbom_in ns) as [s|] eqn:Hs;
      rewrite ?parser_error_eq; unfold mret, M_ret; intros [= <- <-] Hns;
      rewrite ?Hd, ?Hs; split_and!; eauto.
    destruct Hns; eauto.
  - destruct a as [v|v|v|v|]; simpl.
    + destruct (sbom_in ns) as [s|] eqn:Hs; [by rewrite parser_error_eq|].
      intros Hp _. apply (IH _ _ _ _ Hp). simpl. by intros [_ [? [=]]].
    + destruct (directory ns) as [d|] eqn:Hd; [by rewrite parser_error_eq|].
      intros Hp _. apply (IH _ _ _ _ Hp). simpl. by intros [[? [=]] _].
    + intros Hp Hns. by apply (IH _ _ _ _ Hp).
    + intros Hp Hns. by apply (IH _ _ _ _ Hp).
    + done.
Qed.

(** X11: when the arguments are accepted, exactly one of [args.directory]
    and [args.sbom_in] is set, so the scan is never started on a missing
    directory; [--report-out] and [--sbom-out] hold the last value given,
    or [dependency_confusion_report.txt] and [sbom.json] when none was. *)
Theorem parse_args_values (argv : list cli_arg) (args : namespace) (t t' : list event) :
  parse_args argv t = (Ret args, t') →
  ((is_Some (directory args) ∧ sbom_in args = None)
   ∨ (directory args = None ∧ is_Some (sbom_in args)))
  ∧ report_out args = last_report_out argv (py "dependency_confusion_report.txt")
  ∧ sbom_out args = last_sbom_out argv (py "sbom.json")
  ∧ t' = t.
Proof.
  intros Hp.
  destruct (parse_from_values argv defaults t args t' Hp) as (Hr & Hs & Hone).
  { simpl. by intros [[? [=]] _]. }
  split_and!; [done..|]. by eapply parse_from_ret_trace.
Qed.

Lemma parse_args_values_witness :
  ((is_Some (directory directory_args) ∧ sbom_in directory_args = None)
   ∨ (directory directory_args = None ∧ is_Some (sbom_in directory_args)))
  ∧ report_out directory_args
    = last_report_out [OptReportOut (py "old.txt"); OptDirectory (py "project");
                       OptReportOut (py "dependency_confusion_report.txt")]
        (py "dependency_confusion_report.txt")
  ∧ sbom_out directory_args
    = last_sbom_out [OptReportOut (py "old.txt"); OptDirectory (py "project");
                     OptReportOut (py "dependency_confusion_report.txt")]
        (py "sbom.json")
  ∧ @nil event = [].
Proof.
  apply (parse_args_values
           [OptReportOut (py "old.txt"); OptDirectory (py "project");
            OptReportOut (py "dependency_confusion_report.txt")]
           directory_args [] []).
  reflexivity.
Defined.

(** ** The columns of a report line *)

Lemma tag_length v : length (tag v) = 7%nat.
Proof. by destruct v as [[]|]. Qed.

Lemma ljust_length w s : length (ljust w s) = (w `max` length s)%nat.
Proof. unfold ljust. rewrite length_app, length_replicate. lia. Qed.

Lemma report_line_ljust eco name v :
  report_line eco name v = (tag v ++ ljust 5 eco ++ [space]) ++ name ++ ending v.
Proof. destruct v as [[]|]; simpl; by rewrite <- ?app_assoc. Qed.

(** X12: in a report line the tag takes the first 7 columns, the
    ecosystem column is 5 wide, or as wide as the ecosystem when that is
    longer, and the name starts one column after it: at column 13 for
    every ecosystem of at most 5 characters. *)
Theorem report_line_columns (eco name : list N) (v : option bool) :
  take 7 (report_line eco name v) = tag v
  ∧ take (5 `max` length eco) (drop 7 (report_line eco name v)) = ljust 5 eco
  ∧ drop (8 + (5 `max` length eco)) (report_line eco name v) = name ++ ending v
  ∧ ((length eco ≤ 5)%nat → drop 13 (report_line eco name v) = name ++ ending v).
Proof.
  assert (Hdrop : drop (8 + (5 `max` length eco)) (report_line eco name v)
                  = name ++ ending v).
  { rewrite report_line_ljust.
    replace (8 + (5 `max` length eco))%nat
      with (length (tag v ++ ljust 5 eco ++ [space]))
      by (rewrite !length_app, tag_length, ljust_length; simpl; lia).
    apply drop_app_length. }
  split_and!; [| |done|].
  - rewrite report_line_ljust, <- !app_assoc, <- (tag_length v). apply take_app_length.
  - rewrite report_line_ljust, <- !app_assoc, <- (tag_length v), drop_app_length.
    rewrite <- ljust_length. apply take_app_length.
  - intros Hlen. rewrite <- Hdrop. f_equal. lia.
Qed.

(** X13: the verdict can be read back from a report line: two lines that
    are equal come from the same verdict, whatever the ecosystems and the
    names. *)
Theorem report_line_verdict (eco1 name1 eco2 name2 : list N) (v1 v2 : option bool) :
  report_line eco1 name1 v1 = report_line eco2 name2 v2 → v1 = v2.
Proof.
  intros Heq. apply (f_equal (take 7)) in Heq.
  rewrite !report_line_ljust, <- !app_assoc in Heq.
  rewrite <- (tag_length v1) in Heq at 1. rewrite take_app_length in Heq.
  rewrite <- (tag_length v2) in Heq. rewrite take_app_length in Heq.
  by destruct v1 as [[]|], v2 as [[]|].
Qed.

Lemma report_line_verdict_witness : Some false = Some false.
Proof.
  apply (report_line_verdict (py "ab") (py "c") (py "ab   ") (py "c")
           (Some false) (Some false)).
  reflexivity.
Defined.

(** ** The registry URLs *)

(** X14: the registry URL identifies the package: two lookups that ask
    the same URL are for the same ecosystem and the same name. *)
Theorem registry_url_injective (eco1 name1 eco2 name2 url : list N) :
  registry_url eco1 name1 = Some url →
  registry_url eco2 name2 = Some url →
  eco1 = eco2 ∧ name1 = name2.
Proof.
  unfold registry_url. intros H1 H2.
  repeat case_decide; simplify_eq; try done.
  split; [done|]. by apply app_inv_tail in H1.
Qed.

Lemma registry_url_injective_witness :
  py "npm" = py "npm" ∧ py "left-pad" = py "left-pad".
Proof.
  apply (registry_url_injective (py "npm") (py "left-pad") (py "npm") (py "left-pad")
           (py "https://registry.npmjs.org/left-pad")); reflexivity.
Defined.
